(** * The JXA marshalling bridge of pydt3: object pool, encoder, decoder, wrapper

    A shallow embedding of [src/pydt3/jxa_helper_v2.js] (classes
    [ObjectPoolManager], [Util], [JsonTranslator] and the bridge functions
    built from them) and of the id generator of the first helper script
    ([getObjectId]).

    Host values live in an explicit store so that object identity, aliasing
    and in-place updates are visible.  Host numbers are IEEE-754 binary64
    values ([SpecFloat] with precision 53).  Methods are computations in a
    small state-and-exception monad over the store, the pool, the console
    and a trace of Automation calls. *)

From Stdlib Require Import ZArith Ascii String Sorting.Sorted Floats.SpecFloat.
From stdpp Require Import base option list gmap strings.

Local Open Scope Z_scope.

(* ===================================================================== *)
(** ** Host numbers *)
(* ===================================================================== *)

Definition number := spec_float.

Definition prec : Z := 53.
Definition emax : Z := 1024.

(** The number denoting an integer (exact below 2^53 in absolute value). *)
Definition num_of_Z (z : Z) : number := binary_normalize prec emax z 0 false.

(** [x / y] and [x * y] on host numbers. *)
Definition num_div (x y : number) : number := SFdiv prec emax x y.
Definition num_mul (x y : number) : number := SFmul prec emax x y.

(** Truncation toward zero of a finite number; [None] for NaN and the
    infinities. *)
Definition num_trunc (x : number) : option Z :=
  match x with
  | S754_zero _ => Some 0
  | S754_finite s m e =>
      let a := match e with
               | Zneg p => Z.pos m / 2 ^ Z.pos p
               | _ => Z.pos m * 2 ^ e
               end in
      Some (if s then - a else a)
  | _ => None
  end.

(** The integer a number is equal to, when it is one.  This is how a number
    is compared with the integer keys of a [Map] (SameValueZero: -0 is 0). *)
Definition num_to_Z (x : number) : option Z :=
  match x with
  | S754_zero _ => Some 0
  | S754_finite s m e =>
      match e with
      | Zneg p =>
          if decide (Z.pos m mod 2 ^ Z.pos p = 0)
          then Some (if s then - (Z.pos m / 2 ^ Z.pos p) else Z.pos m / 2 ^ Z.pos p)
          else None
      | _ => Some (if s then - (Z.pos m * 2 ^ e) else Z.pos m * 2 ^ e)
      end
  | _ => None
  end.

(* ===================================================================== *)
(** ** Host values and the object store *)
(* ===================================================================== *)

(** Object identity: the address of the object in the store. *)
Definition loc := nat.

Inductive value :=
  | VUndefined
  | VNull
  | VBool (b : bool)
  | VNum (x : number)
  | VStr (s : string)
  | VSymbol
  | VBigInt (z : Z)
  | VObj (l : loc).

(** A thrown exception: its [name], its [message] and, for the errors the
    scripting bridge raises, its [errorNumber]. *)
Record error := Error {
  err_name : string;
  err_message : string;
  errorNumber : option Z
}.

Definition TypeError (msg : string) : error := Error "TypeError" msg None.
Definition SyntaxError (msg : string) : error := Error "SyntaxError" msg None.
Definition PlainError (msg : string) : error := Error "Error" msg None.

(** Outcome of a host call that the model takes from the host. *)
Inductive host_result :=
  | HostReturns (v : value)
  | HostThrows (e : error).

(** What the Automation layer answers about one object specifier. *)
Record specifier := Specifier {
  sp_classOf : option string;        (* ObjectSpecifier.classOf(s); None is undefined *)
  sp_whose : bool;                   (* 'whose' in Object.getPrototypeOf(s) *)
  sp_at : bool;                      (* 'at' in Object.getPrototypeOf(s) *)
  sp_class : option host_result;     (* s.class: None when undefined, else what s.class() does *)
  sp_display : string;               (* Automation.getDisplayString(s) *)
  sp_call : host_result              (* what s() does: evaluating the specifier *)
}.

(** Property keys.  [Idx i] is the canonical array-index key (the decimal
    string of [i]); [Name s] is any other string key. *)
Inductive pkey :=
  | Idx (i : N)
  | Name (s : string).

Inductive kind :=
  | KObject (ctor : option string)   (* typeof 'object'; name of the inherited constructor *)
  | KArray (len : N)                 (* Array.isArray; its length *)
  | KDate (t : option Z)             (* instanceof Date; time value in ms, None is NaN *)
  | KSpecifier (sp : specifier)      (* ObjectSpecifier.hasInstance *)
  | KFunction (name : string).       (* any other callable; its name *)

(** An object: its kind and its own enumerable properties, kept in the
    order in which [for (k in o)] visits them. *)
Record object := Object {
  o_kind : kind;
  o_props : list (pkey * value)
}.

(** The store: objects by address. *)
Abbreviation heap := (list object).

#[global] Instance pkey_eq_dec : EqDecision pkey.
Proof. solve_decision. Defined.
#[global] Instance number_eq_dec : EqDecision number.
Proof. solve_decision. Defined.
#[global] Instance value_eq_dec : EqDecision value.
Proof. solve_decision. Defined.

Fixpoint props_get (k : pkey) (ps : list (pkey * value)) : option value :=
  match ps with
  | [] => None
  | (k', v) :: ps' => if decide (k = k') then Some v else props_get k ps'
  end.

(** [o[k] = v] on the property list: an existing key keeps its place; a new
    index key goes before the first larger index key or the first name; a
    new name goes last. *)
Fixpoint props_set (k : pkey) (v : value) (ps : list (pkey * value))
  : list (pkey * value) :=
  match ps with
  | [] => [(k, v)]
  | (k', v') :: ps' =>
      if decide (k = k') then (k, v) :: ps'
      else match k, k' with
           | Idx i, Idx j => if (i <? j)%N then (k, v) :: ps
                             else (k', v') :: props_set k v ps'
           | Idx _, Name _ => (k, v) :: ps
           | Name _, _ => (k', v') :: props_set k v ps'
           end
  end.

Definition kind_set (k : pkey) (kd : kind) : kind :=
  match kd, k with
  | KArray len, Idx i => KArray (N.max len (i + 1))
  | _, _ => kd
  end.

Definition object_set (k : pkey) (v : value) (o : object) : object :=
  Object (kind_set k (o_kind o)) (props_set k v (o_props o)).

(* ===================================================================== *)
(** ** The object pool state *)
(* ===================================================================== *)

(** [ObjectPoolManager]'s three fields.  The counter is an unbounded
    integer: host numbers count exactly up to 2^53. *)
Record pool := Pool {
  _currentId : Z;
  _objectIdMap : gmap loc Z;
  _idObjectMap : gmap Z loc
}.

(** [new ObjectPoolManager()] *)
Definition new_pool : pool := Pool 0 ∅ ∅.

(** The globals of the first helper script: the id generator, a closure
    over a counter and a weak map from objects to ids, and
    [objectCacheMap]. *)
Record idgen := IdGen {
  count : Z;
  objIdMap : gmap loc Z
}.

Definition new_idgen : idgen := IdGen 0 ∅.

(* ===================================================================== *)
(** ** The world and the monad of host computations *)
(* ===================================================================== *)

(** Lines written by [console.log]. *)
Inductive log_entry :=
  | LogGetObject (id : value)        (* Error getting object with id: ... *)
  | LogUnwrapObject (id : value)     (* Error unwrapping object with id: ... *)
  | LogUnwrapParams (e : error)      (* Error unwrapping params: ... *)
  | LogWrapResult (e : error).       (* Error wrapping result: ... *)

(** Calls into the Automation layer. *)
Inductive event :=
  | EvClassOf (l : loc)              (* ObjectSpecifier.classOf(s) *)
  | EvClassQuery (l : loc)           (* s.class() *)
  | EvDisplayString (l : loc)        (* Automation.getDisplayString(s) *)
  | EvEvaluate (l : loc).            (* s() *)

Record world := World {
  w_heap : heap;
  w_pool : pool;                     (* objectPoolManager *)
  w_console : list log_entry;
  w_events : list event;
  w_idgen : idgen;                   (* first script: state of getObjectId *)
  w_cache : gmap Z loc               (* first script: objectCacheMap *)
}.

Definition with_heap (h : heap) (w : world) : world :=
  World h (w_pool w) (w_console w) (w_events w) (w_idgen w) (w_cache w).
Definition with_pool (p : pool) (w : world) : world :=
  World (w_heap w) p (w_console w) (w_events w) (w_idgen w) (w_cache w).
Definition with_console (c : list log_entry) (w : world) : world :=
  World (w_heap w) (w_pool w) c (w_events w) (w_idgen w) (w_cache w).
Definition with_events (e : list event) (w : world) : world :=
  World (w_heap w) (w_pool w) (w_console w) e (w_idgen w) (w_cache w).

(** The world at start-up: nothing allocated, an empty pool. *)
Definition empty_world : world := World [] new_pool [] [] new_idgen ∅.

Inductive result (A : Type) :=
  | Ok (a : A)
  | Throw (e : error)
  | Diverge.                         (* recursion budget exhausted *)
Arguments Ok {A} a.
Arguments Throw {A} e.
Arguments Diverge {A}.

Definition M (A : Type) : Type := world → result A * world.

Definition ret {A} (a : A) : M A := λ w, (Ok a, w).
Definition throw {A} (e : error) : M A := λ w, (Throw e, w).
Definition diverge {A} : M A := λ w, (Diverge, w).
Definition bind {A B} (m : M A) (f : A → M B) : M B :=
  λ w, match m w with
       | (Ok a, w') => f a w'
       | (Throw e, w') => (Throw e, w')
       | (Diverge, w') => (Diverge, w')
       end.

(** [try { m } catch (error) { h error }] *)
Definition try_catch {A} (m : M A) (h : error → M A) : M A :=
  λ w, match m w with
       | (Throw e, w') => h e w'
       | r => r
       end.

Declare Scope host_scope.
Delimit Scope host_scope with host.
Notation "'let*' x ':=' m 'in' k" := (bind m (λ x, k))
  (at level 10, x name, m at level 100, k at level 200,
   format "'[v' 'let*'  x  ':='  m  'in' '/' k ']'") : host_scope.
Notation "m '>>' k" := (bind m (λ _, k))
  (at level 100, k at level 200, right associativity) : host_scope.
Local Open Scope host_scope.

Definition get_heap : M heap := λ w, (Ok (w_heap w), w).
Definition get_pool : M pool := λ w, (Ok (w_pool w), w).
Definition put_heap (h : heap) : M unit := λ w, (Ok tt, with_heap h w).
Definition put_pool (p : pool) : M unit := λ w, (Ok tt, with_pool p w).
Definition console_log (e : log_entry) : M unit :=
  λ w, (Ok tt, with_console (w_console w ++ [e]) w).
Definition emit (e : event) : M unit :=
  λ w, (Ok tt, with_events (w_events w ++ [e]) w).

Definition of_host (r : host_result) : M value :=
  match r with
  | HostReturns v => ret v
  | HostThrows e => throw e
  end.

(** Allocation of a new object: its address is the next free one. *)
Definition alloc (o : object) : M value :=
  λ w, (Ok (VObj (length (w_heap w))), with_heap (w_heap w ++ [o]) w).

(* ===================================================================== *)
(** ** class ObjectPoolManager *)
(* ===================================================================== *)

(** The integer key an id value selects in [_idObjectMap]; a value that is
    not a number, or not an integer, equals no key. *)
Definition id_key (id : value) : option Z :=
  match id with
  | VNum x => num_to_Z x
  | _ => None
  end.

(** [this._idObjectMap.get(id)]: the stored object, or [undefined]. *)
Definition idObjectMap_get (id : value) (p : pool) : value :=
  match id_key id ≫= (λ k, _idObjectMap p !! k) with
  | Some l => VObj l
  | None => VUndefined
  end.

Definition getObject (id : value) : M value :=
  try_catch
    (let* p := get_pool in ret (idObjectMap_get id p))
    (λ error, console_log (LogGetObject id) >> ret VUndefined).

(** The translator hands [getId] objects only (specifiers and functions):
    the keys of [_objectIdMap] are object identities. *)
Definition getId (obj : loc) : M Z :=
  let* p := get_pool in
  (if decide (is_Some (_objectIdMap p !! obj)) then ret tt
   else
     let c := _currentId p + 1 in
     put_pool (Pool c (<[obj := c]> (_objectIdMap p)) (<[c := obj]> (_idObjectMap p)))) >>
  let* p' := get_pool in
  ret (_currentId p').

Definition releaseObjectWithId (objectId : value) : M unit :=
  let* obj := getObject objectId in
  let* p := get_pool in
  put_pool (Pool (_currentId p)
              (match obj with
               | VObj l => delete l (_objectIdMap p)
               | _ => _objectIdMap p
               end)
              (match id_key objectId with
               | Some k => delete k (_idObjectMap p)
               | None => _idObjectMap p
               end)).

(** *** The id generator of the first helper script *)

Definition getObjectId (object : loc) (g : idgen) : Z * idgen :=
  match objIdMap g !! object with
  | None =>
      let c := count g + 1 in
      (c, IdGen c (<[object := c]> (objIdMap g)))
  | Some objectId => (objectId, g)
  end.

(** *** Sequences of pool calls *)

Inductive pool_call :=
  | CallGetId (o : loc)
  | CallGetObject (id : value)
  | CallRelease (id : value).

Definition call_step (c : pool_call) (w : world) : world :=
  match c with
  | CallGetId o => (getId o w).2
  | CallGetObject id => (getObject id w).2
  | CallRelease id => (releaseObjectWithId id w).2
  end.

Definition run_calls (cs : list pool_call) (w : world) : world :=
  foldl (λ w c, call_step c w) w cs.

(** The states the pool goes through, the first one included. *)
Fixpoint states (cs : list pool_call) (w : world) : list world :=
  w :: match cs with
       | [] => []
       | c :: cs' => states cs' (call_step c w)
       end.

(** The two maps are inverse to each other. *)
Definition mutual_inverses (p : pool) : Prop :=
  ∀ o i, _objectIdMap p !! o = Some i ↔ _idObjectMap p !! i = Some o.

(** Every id in use was produced by the counter. *)
Definition ids_bounded (p : pool) : Prop :=
  ∀ i o, _idObjectMap p !! i = Some o → 0 < i ≤ _currentId p.

Definition pool_inv (p : pool) : Prop :=
  0 ≤ _currentId p ∧ mutual_inverses p ∧ ids_bounded p.

(* ===================================================================== *)
(** ** Reading and writing the store *)
(* ===================================================================== *)

(** The kind of the object at an address.  Every address held by a value
    is allocated; the default is never reached on such a store. *)
Definition heap_kind (h : heap) (l : loc) : kind :=
  match h !! l with
  | Some o => o_kind o
  | None => KObject None
  end.

Definition heap_props (h : heap) (l : loc) : list (pkey * value) :=
  match h !! l with
  | Some o => o_props o
  | None => []
  end.

Definition specifier_of (h : heap) (v : value) : option (loc * specifier) :=
  match v with
  | VObj l => match heap_kind h l with
              | KSpecifier sp => Some (l, sp)
              | _ => None
              end
  | _ => None
  end.

(** [typeof v].  Object specifiers are callable proxies: like functions
    they answer ['function']. *)
Definition typeof (h : heap) (v : value) : string :=
  match v with
  | VUndefined => "undefined"
  | VNull => "object"
  | VBool _ => "boolean"
  | VNum _ => "number"
  | VStr _ => "string"
  | VSymbol => "symbol"
  | VBigInt _ => "bigint"
  | VObj l => match heap_kind h l with
              | KSpecifier _ | KFunction _ => "function"
              | _ => "object"
              end
  end.

Fixpoint string_nth (i : nat) (s : string) : option ascii :=
  match s, i with
  | EmptyString, _ => None
  | String a _, O => Some a
  | String _ s', S i' => string_nth i' s'
  end.

(** [v[k]] for the keys the translator uses: own properties of objects,
    the length of an array, the name of a function, characters of strings;
    reading a property of [undefined] or [null] throws. *)
Definition read_prop (h : heap) (v : value) (k : pkey) : result value :=
  match v with
  | VUndefined | VNull => Throw (TypeError "undefined or null is not an object")
  | VStr s =>
      match k with
      | Idx i => match string_nth (N.to_nat i) s with
                 | Some a => Ok (VStr (String a EmptyString))
                 | None => Ok VUndefined
                 end
      | Name n =>
          if decide (n = "length")
          then Ok (VNum (num_of_Z (Z.of_nat (String.length s))))
          else Ok VUndefined
      end
  | VObj l =>
      let own := default VUndefined (props_get k (heap_props h l)) in
      match heap_kind h l with
      | KArray len =>
          if decide (k = Name "length") then Ok (VNum (num_of_Z (Z.of_N len)))
          else Ok own
      | KFunction n =>
          if decide (k = Name "name") then Ok (VStr n) else Ok own
      | _ => Ok own
      end
  | _ => Ok VUndefined
  end.

Definition get_prop (v : value) (k : pkey) : M value :=
  λ w, (read_prop (w_heap w) v k, w).

(** [v[k] = x] in strict code: writes the object in place; a primitive
    base throws. *)
Definition put_prop (v : value) (k : pkey) (x : value) : M unit :=
  match v with
  | VObj l =>
      let* h := get_heap in
      put_heap (alter (object_set k x) l h)
  | VUndefined | VNull =>
      throw (TypeError "undefined or null is not an object")
  | _ => throw (TypeError "cannot assign to a property of a primitive value")
  end.

(** The keys [for (k in v)] visits. *)
Definition for_in_keys (h : heap) (v : value) : list pkey :=
  match v with
  | VObj l => (heap_props h l).*1
  | VStr s => Idx <$> (N.of_nat <$> seq 0 (String.length s))
  | _ => []
  end.

Fixpoint for_each {A} (xs : list A) (body : A → M unit) : M unit :=
  match xs with
  | [] => ret tt
  | x :: xs' => body x >> for_each xs' body
  end.

(** An object literal [{k1: v1, ...}]. *)
Definition literal (ps : list (string * value)) : object :=
  Object (KObject (Some "Object")) (prod_map Name id <$> ps).

(* ===================================================================== *)
(** ** class Util *)
(* ===================================================================== *)

Definition quote1 : ascii := "'"%char.
Definition quote2 : ascii := Ascii.ascii_of_nat 34.
Definition rparen : ascii := ")"%char.

Definition is_quote (a : ascii) : bool :=
  bool_decide (a = quote1) || bool_decide (a = quote2).

Fixpoint strip_prefix (p s : string) : option string :=
  match p, s with
  | EmptyString, _ => Some s
  | String a p', String b s' => if decide (a = b) then strip_prefix p' s' else None
  | String _ _, EmptyString => None
  end.

(** The capture group (any run of characters other than a closing
    parenthesis) followed by a quote and a closing parenthesis: the text
    before the quote that stands just before the first closing
    parenthesis. *)
Fixpoint capture_name (s : string) : option string :=
  match s with
  | String q s' =>
      if decide (q = rparen) then None
      else match s' with
           | String c _ =>
               if decide (c = rparen)
               then (if is_quote q then Some EmptyString else None)
               else String q <$> capture_name s'
           | EmptyString => None
           end
  | EmptyString => None
  end.

(** Group 1 of [displayString.match(re)], where [re] matches, at the start
    of the string, the word Application, an opening parenthesis, a single
    or double quote, the capture group, a quote and a closing
    parenthesis. *)
Definition match_application (displayString : string) : option string :=
  match strip_prefix "Application(" displayString with
  | Some (String q rest) => if is_quote q then capture_name rest else None
  | _ => None
  end.

(** Only specifiers are ever passed; the display string of anything else
    does not start with [Application(]. *)
Definition getAssociatedApplicationName (obj : value) : M value :=
  let* h := get_heap in
  match specifier_of h obj with
  | Some (l, sp) =>
      emit (EvDisplayString l) >>
      let displayString := sp_display sp in
      match match_application displayString with
      | Some name => ret (VStr name)
      | None => ret VNull
      end
  | None => ret VNull
  end.

Definition guessIsSpecifierContainer (specifier : value) : M bool :=
  let* h := get_heap in
  match specifier_of h specifier with
  | None => ret false
  | Some (_, sp) => ret (sp_whose sp && sp_at sp)
  end.

Definition opt_string_value (s : option string) : value :=
  match s with
  | Some s => VStr s
  | None => VUndefined
  end.

(** ['array::' + classOf] *)
Definition array_class (classOf : option string) : string :=
  "array::" +:+ default "undefined" classOf.

Definition guessClassOfSpecifier (specifier : value) : M value :=
  let* h := get_heap in
  match specifier_of h specifier with
  | None => ret VUndefined
  | Some (l, sp) =>
      emit (EvClassOf l) >>
      let classOf := sp_classOf sp in
      if decide (classOf = Some "application") then ret (VStr "application")
      else
        let* container := guessIsSpecifierContainer specifier in
        if container then ret (VStr (array_class classOf))
        else match sp_class sp with
             | Some call =>
                 try_catch
                   (emit (EvClassQuery l) >> of_host call)
                   (λ e, if decide (errorNumber e = Some (-1700))
                         then ret (opt_string_value classOf)
                         else ret VUndefined)
             | None => ret (opt_string_value classOf)
             end
  end.

Definition isJsonNode (obj : value) : bool :=
  match obj with
  | VNull | VUndefined | VStr _ | VNum _ | VBool _ => true
  | _ => false
  end.

(* ===================================================================== *)
(** ** Dates *)
(* ===================================================================== *)

(** [date.getTime()] *)
Definition getTime (t : option Z) : number :=
  match t with
  | Some z => num_of_Z z
  | None => S754_nan
  end.

(** The time value [new Date(x)] stores for a number [x] (TimeClip): NaN
    outside of ±8.64e15 ms, else [x] truncated to an integer.  No number
    beyond 2^52 has a fraction, so the range test can follow the
    truncation. *)
Definition TimeClip (x : number) : option Z :=
  match num_trunc x with
  | Some z => if decide (Z.abs z ≤ 8640000000000000) then Some z else None
  | None => None
  end.

(* ===================================================================== *)
(** ** class JsonTranslator: wrapToJson *)
(* ===================================================================== *)

(** [obj.constructor.name] for an object of kind [KObject ctor]: an own
    property named [constructor] shadows the inherited one. *)
Definition constructor_name (l : loc) (ctor : option string) : M value :=
  let* h := get_heap in
  match props_get (Name "constructor") (heap_props h l), ctor with
  | Some c, _ => get_prop c (Name "name")
  | None, Some n => ret (VStr n)
  | None, None => get_prop VUndefined (Name "name")
  end.

(** [s.startsWith(p)] *)
Definition startsWith (s p : string) : bool :=
  match strip_prefix p s with
  | Some _ => true
  | None => false
  end.

Definition reference_node (objId : Z) (rest : list (string * value)) : object :=
  literal ([("type", VStr "reference"); ("objId", VNum (num_of_Z objId))] ++ rest).

Fixpoint wrapToJson (fuel : nat) (obj : value) : M value :=
  match fuel with
  | O => diverge
  | S fuel' =>
      let obj := match obj with VUndefined => VNull | _ => obj end in
      if isJsonNode obj then
        alloc (literal [("type", VStr "plain"); ("data", obj)])
      else
        let* h := get_heap in
        match specifier_of h obj with
        | Some (l, _) =>
            let* guessClass := guessClassOfSpecifier obj in
            match guessClass with
            | VUndefined =>
                let* objId := getId l in
                let* app := getAssociatedApplicationName obj in
                alloc (reference_node objId
                         [("app", app); ("className", VStr "unknown")])
            | VStr c =>
                if decide (c = "application") then
                  let* objId := getId l in
                  let* app := getAssociatedApplicationName obj in
                  alloc (reference_node objId
                           [("app", app); ("className", VStr "application")])
                else if startsWith c "array::" then
                  let* objId := getId l in
                  let* app := getAssociatedApplicationName obj in
                  alloc (reference_node objId
                           [("app", app); ("className", guessClass)])
                else
                  let* objId := getId l in
                  let* app := getAssociatedApplicationName obj in
                  alloc (reference_node objId
                           [("className", guessClass); ("app", app)])
            | _ => throw (TypeError "guessClass.startsWith is not a function")
            end
        | None =>
            match obj with
            | VObj l =>
                match heap_kind h l with
                | KDate t =>
                    alloc (literal [("type", VStr "date");
                                    ("data", VNum (num_div (getTime t) (num_of_Z 1000)))])
                | KArray _ =>
                    let* data := alloc (Object (KArray 0) []) in
                    for_each (for_in_keys h obj)
                      (λ i, let* x := get_prop obj i in
                            let* y := wrapToJson fuel' x in
                            put_prop data i y) >>
                    alloc (literal [("type", VStr "array"); ("data", data)])
                | KObject ctor =>
                    let* name := constructor_name l ctor in
                    if decide (name = VStr "Object") then
                      let* data := alloc (literal []) in
                      for_each (for_in_keys h obj)
                        (λ k, let* x := get_prop obj k in
                              let* y := wrapToJson fuel' x in
                              put_prop data k y) >>
                      alloc (literal [("type", VStr "dict"); ("data", data)])
                    else
                      throw (PlainError "wrapObjToJson: Unknown type: object")
                | KFunction _ | KSpecifier _ =>
                    let* objId := getId l in
                    alloc (reference_node objId [("className", VStr "function")])
                end
            | _ => throw (PlainError ("Unknown type: " +:+ typeof h obj))
            end
        end
  end.

(* ===================================================================== *)
(** ** JSON documents *)
(* ===================================================================== *)

(** A JSON text is represented by the document it spells; member names are
    property keys. *)
#[warnings="-register-all"]
Inductive json :=
  | JNull
  | JBool (b : bool)
  | JNum (x : number)
  | JStr (s : string)
  | JArr (items : list json)
  | JObj (members : list (pkey * json)).

(** A string handed to [JSON.parse]: a JSON text, or anything else. *)
Inductive wire :=
  | JsonText (j : json)
  | NotJson.

Definition array_object (vs : list value) : object :=
  Object (KArray (N.of_nat (length vs)))
         (imap (λ i v, (Idx (N.of_nat i), v)) vs).

Fixpoint parse_json (j : json) : M value :=
  match j with
  | JNull => ret VNull
  | JBool b => ret (VBool b)
  | JNum x => ret (VNum x)
  | JStr s => ret (VStr s)
  | JArr items =>
      let* vs := (fix go (js : list json) : M (list value) :=
                    match js with
                    | [] => ret []
                    | j' :: js' =>
                        let* v := parse_json j' in
                        let* vs := go js' in
                        ret (v :: vs)
                    end) items in
      alloc (array_object vs)
  | JObj members =>
      let* ps := (fix go (ms : list (pkey * json)) (ps : list (pkey * value))
                    : M (list (pkey * value)) :=
                    match ms with
                    | [] => ret ps
                    | (k, j') :: ms' =>
                        let* v := parse_json j' in
                        go ms' (props_set k v ps)
                    end) members [] in
      alloc (Object (KObject (Some "Object")) ps)
  end.

(** [JSON.parse(text)] *)
Definition JSON_parse (text : wire) : M value :=
  match text with
  | JsonText j => parse_json j
  | NotJson => throw (SyntaxError "JSON Parse error")
  end.

Fixpoint map_M {A B} (f : A → M B) (xs : list A) : M (list B) :=
  match xs with
  | [] => ret []
  | x :: xs' =>
      let* y := f x in
      let* ys := map_M f xs' in
      ret (y :: ys)
  end.

Section HostBuiltins.

(** Taken from the host: [ToNumber] on strings and objects, and
    [Date.prototype.toISOString] on a valid time value. *)
Variable host_ToNumber : heap → value → number.
Variable host_toISOString : Z → string.

(** The operand conversion of [v * 1000]. *)
Definition ToNumber (v : value) : M number :=
  match v with
  | VUndefined => ret S754_nan
  | VNull => ret (S754_zero false)
  | VBool b => ret (if b then num_of_Z 1 else S754_zero false)
  | VNum x => ret x
  | VSymbol => throw (TypeError "cannot convert a symbol to a number")
  | VBigInt _ => throw (TypeError "cannot mix BigInt and other types")
  | VStr _ | VObj _ => let* h := get_heap in ret (host_ToNumber h v)
  end.

(** *** unwrapFromJson *)

Fixpoint unwrapFromJson (fuel : nat) (obj : value) : M value :=
  match fuel with
  | O => diverge
  | S fuel' =>
      let* type := get_prop obj (Name "type") in
      if decide (type = VStr "plain") then
        get_prop obj (Name "data")
      else if decide (type = VStr "date") then
        let* d := get_prop obj (Name "data") in
        let* x := ToNumber d in
        alloc (Object (KDate (TimeClip (num_mul x (num_of_Z 1000)))) [])
      else if decide (type = VStr "array" ∨ type = VStr "dict") then
        let* data := get_prop obj (Name "data") in
        let* h := get_heap in
        for_each (for_in_keys h data)
          (λ k, let* target := get_prop obj (Name "data") in
                let* source := get_prop obj (Name "data") in
                let* x := get_prop source k in
                let* y := unwrapFromJson fuel' x in
                put_prop target k y) >>
        get_prop obj (Name "data")
      else if decide (type = VStr "reference") then
        try_catch
          (let* objId := get_prop obj (Name "objId") in
           getObject objId)
          (λ error,
             let* objId := get_prop obj (Name "objId") in
             console_log (LogUnwrapObject objId) >> ret VUndefined)
      else ret VUndefined
  end.

(** *** JSON.stringify *)

(** [JSON.stringify(v)]: the document, or [None] when the result is
    [undefined].  [stack] holds the objects being serialized; meeting
    one of them again is a cycle. *)
Fixpoint serialize (fuel : nat) (stack : list loc) (v : value)
  : M (option json) :=
  match fuel with
  | O => diverge
  | S fuel' =>
      match v with
      | VUndefined | VSymbol => ret None
      | VNull => ret (Some JNull)
      | VBool b => ret (Some (JBool b))
      | VNum x =>
          ret (Some (match x with
                     | S754_finite _ _ _ => JNum x
                     | S754_zero _ => JNum (S754_zero false)
                     | _ => JNull
                     end))
      | VStr s => ret (Some (JStr s))
      | VBigInt _ => throw (TypeError "JSON.stringify cannot serialize BigInt")
      | VObj l =>
          let* h := get_heap in
          match heap_kind h l with
          | KDate (Some t) => ret (Some (JStr (host_toISOString t)))
          | KDate None => ret (Some JNull)
          | KSpecifier _ | KFunction _ => ret None
          | KArray len =>
              if decide (l ∈ stack) then
                throw (TypeError "JSON.stringify cannot serialize cyclic structures")
              else
                let* items :=
                  map_M (λ i, let* x := get_prop v (Idx (N.of_nat i)) in
                              let* r := serialize fuel' (l :: stack) x in
                              ret (default JNull r))
                        (seq 0 (N.to_nat len)) in
                ret (Some (JArr items))
          | KObject _ =>
              if decide (l ∈ stack) then
                throw (TypeError "JSON.stringify cannot serialize cyclic structures")
              else
                let* members :=
                  map_M (λ k, let* x := get_prop v k in
                              let* r := serialize fuel' (l :: stack) x in
                              ret (pair k <$> r))
                        (for_in_keys h v) in
                ret (Some (JObj (omap id members)))
          end
      end
  end.

Definition JSON_stringify (fuel : nat) (v : value) : M (option json) :=
  serialize fuel [] v.

(** *** strIOFuncWrapper *)

Definition strIOFuncWrapper (fuel : nat) (func : value → M value)
  : wire → M (option json) :=
  λ strParams,
    let* params := JSON_parse strParams in
    let* params :=
      try_catch (unwrapFromJson fuel params)
                (λ error, console_log (LogUnwrapParams error) >> ret params) in
    let* result := func params in
    let* result :=
      try_catch (wrapToJson fuel result)
                (λ error, console_log (LogWrapResult error) >> ret result) in
    JSON_stringify fuel result.

(** [jsonIOWrapper] of the first helper script. *)
Definition jsonIOWrapper (fuel : nat) (func : value → M value)
  : wire → M (option json) :=
  λ param_str,
    let* param := JSON_parse param_str in
    let* result := func param in
    JSON_stringify fuel result.

(** *** Bridge functions *)

Definition _echo (params : value) : M value := ret params.

Definition echo (fuel : nat) : wire → M (option json) :=
  strIOFuncWrapper fuel _echo.

(** The parameter pattern [{id}] reads [params.id]. *)
Definition _releaseObjectWithId (params : value) : M value :=
  let* id := get_prop params (Name "id") in
  releaseObjectWithId id >> ret VUndefined.

Definition bridge_releaseObjectWithId (fuel : nat) : wire → M (option json) :=
  strIOFuncWrapper fuel _releaseObjectWithId.

End HostBuiltins.

(* ===================================================================== *)
(** ** The encoder of the first helper script *)
(* ===================================================================== *)

Module V1.

(** [cacheObjct(obj)] *)
Definition cacheObjct (obj : loc) : M Z :=
  λ w, let '(id, g) := getObjectId obj (w_idgen w) in
       (Ok id, World (w_heap w) (w_pool w) (w_console w) (w_events w)
                     g (<[id := obj]> (w_cache w))).

Definition guessIsContainerSpecifier (specifier : value) : M bool :=
  guessIsSpecifierContainer specifier.

Definition guessClassOfSpecifier (specifier : value) : M value :=
  let* h := get_heap in
  match specifier_of h specifier with
  | None => ret VUndefined
  | Some (l, sp) =>
      let* container := guessIsContainerSpecifier specifier in
      if container then
        emit (EvClassOf l) >> ret (VStr (array_class (sp_classOf sp)))
      else
        try_catch
          (match sp_class sp with
           | Some call => emit (EvClassQuery l) >> of_host call
           | None => throw (TypeError "specifier.class is not a function")
           end)
          (λ e, if decide (errorNumber e = Some (-1700)) then ret VUndefined
              else ret VUndefined)
  end.

Definition isJsonNodeValue (obj : value) : bool := isJsonNode obj.

(** [!isPlainObj(obj)] *)
Definition not_isPlainObj (h : heap) (obj : value) : bool :=
  if isJsonNodeValue obj then false
  else match obj with
       | VObj l =>
           match heap_kind h l with
           | KSpecifier _ | KFunction _ => true
           | _ => negb (forallb (λ kv, isJsonNodeValue kv.2) (heap_props h l))
           end
       | _ => true
       end.

Definition reference_node (objId : Z) (rest : list (string * value)) : object :=
  literal ([("type", VStr "reference"); ("objId", VNum (num_of_Z objId))] ++ rest).

Fixpoint wrapObjToJson (fuel : nat) (obj : value) : M value :=
  match fuel with
  | O => diverge
  | S fuel' =>
      let obj := match obj with VUndefined => VNull | _ => obj end in
      if isJsonNodeValue obj then
        alloc (literal [("type", VStr "plain"); ("data", obj)])
      else
        let* h := get_heap in
        match obj with
        | VObj l =>
            match heap_kind h l with
            | KDate t =>
                alloc (literal [("type", VStr "date");
                                ("data", VNum (num_div (getTime t) (num_of_Z 1000)))])
            | KArray _ =>
                let* data := alloc (Object (KArray 0) []) in
                for_each (for_in_keys h obj)
                  (λ i, let* x := get_prop obj i in
                        let* y := wrapObjToJson fuel' x in
                        put_prop data i y) >>
                alloc (literal [("type", VStr "array"); ("data", data)])
            | KObject ctor =>
                let* name := constructor_name l ctor in
                if decide (name = VStr "Object") then
                  let* data := alloc (literal []) in
                  for_each (for_in_keys h obj)
                    (λ k, let* x := get_prop obj k in
                          let* y := wrapObjToJson fuel' x in
                          put_prop data k y) >>
                  alloc (literal [("type", VStr "dict"); ("data", data)])
                else
                  throw (PlainError "wrapObjToJson: Unknown type: object")
            | KSpecifier sp =>
                let* guessClass := guessClassOfSpecifier obj in
                match guessClass with
                | VUndefined =>
                    let* evaluated := (emit (EvEvaluate l) >> of_host (sp_call sp)) in
                    wrapObjToJson fuel' evaluated
                | VStr c =>
                    if decide (c = "application") then
                      let* objId := cacheObjct l in
                      alloc (reference_node objId
                               [("plainRepr", VNull); ("className", VStr "application")])
                    else if startsWith c "array::" then
                      let* objId := cacheObjct l in
                      alloc (reference_node objId
                               [("plainRepr", VNull); ("className", guessClass)])
                    else
                      let* evaluated := (emit (EvEvaluate l) >> of_host (sp_call sp)) in
                      let* h' := get_heap in
                      let evaluated :=
                        if not_isPlainObj h' evaluated then VNull else evaluated in
                      let* objId := cacheObjct l in
                      alloc (reference_node objId
                               [("className", guessClass); ("plainRepr", evaluated)])
                | _ => throw (TypeError "guessClass.startsWith is not a function")
                end
            | KFunction _ =>
                let* objId := cacheObjct l in
                alloc (reference_node objId [("className", VStr "function")])
            end
        | _ => throw (PlainError ("Unknown type: " +:+ typeof h obj))
        end
  end.

End V1.

(* ===================================================================== *)
(** ** Sample hosts, operations and requests *)
(* ===================================================================== *)

(** A host whose conversions of strings and objects to numbers give NaN
    and whose dates print as the empty string. *)
Definition sample_ToNumber : heap → value → number := λ _ _, S754_nan.
Definition sample_toISOString : Z → string := λ _, "".

(** An operation that returns an instance of a class [Point] with the
    fields [type] and [data], and one that returns the number 5. *)
Definition returns_point : value → M value :=
  λ _, alloc (Object (KObject (Some "Point"))
                     [(Name "type", VStr "plain"); (Name "data", VNum (num_of_Z 5))]).
Definition returns_five : value → M value := λ _, ret (VNum (num_of_Z 5)).

Definition plain_doc (j : json) : json :=
  JObj [(Name "type", JStr "plain"); (Name "data", j)].
Definition reference_doc (id : Z) : json :=
  JObj [(Name "type", JStr "reference"); (Name "objId", JNum (num_of_Z id))].
Definition array_doc (items : list json) : json :=
  JObj [(Name "type", JStr "array"); (Name "data", JArr items)].

(** A specifier about which the Automation layer knows no class. *)
Definition unknown_specifier : specifier :=
  Specifier None false false None "Application('Finder').selection"
            (HostReturns (VStr "evaluated")).

Definition specifier_world : world :=
  with_heap [Object (KSpecifier unknown_specifier) []] empty_world.

(* ===================================================================== *)
(** ** Predicates used in the statements *)
(* ===================================================================== *)

(** The seconds value [t / 1000] of a time value of [t] ms is a dyadic
    rational: it is a host number without rounding. *)
Definition seconds_exact (t : Z) : Prop :=
  ∃ m k : Z, 0 ≤ k ∧ 1000 * m = t * 2 ^ k.

(** Values no branch of [wrapToJson] accepts: symbols, big integers, and
    objects that are neither specifiers, dates, arrays nor functions and
    whose [constructor.name] is not the string [Object]. *)
Definition unclassifiable (w : world) (v : value) : Prop :=
  v = VSymbol ∨ (∃ z, v = VBigInt z) ∨
  (∃ l ctor, v = VObj l ∧ heap_kind (w_heap w) l = KObject ctor ∧
             (constructor_name l ctor w).1 ≠ Ok (VStr "Object")).

(** The first [n] objects are as before, nothing was freed, and nothing
    was written to the console. *)
Definition preserved (n : nat) (w w' : world) : Prop :=
  take n (w_heap w') = take n (w_heap w) ∧
  (length (w_heap w) ≤ length (w_heap w'))%nat ∧
  w_console w' = w_console w.

Definition keeps {A} (n : nat) (m : M A) : Prop :=
  ∀ w, (n ≤ length (w_heap w))%nat → preserved n w (m w).2.

(** A computation that changes nothing but the store. *)
Definition heap_only {A} (m : M A) : Prop :=
  ∀ w, ∃ h, (m w).2 = with_heap h w.

(** Own properties in enumeration order: index keys ascending, then
    names, no key twice. *)
Definition key_before (k k' : pkey) : Prop :=
  match k, k' with
  | Idx i, Idx j => (i < j)%N
  | Idx _, Name _ => True
  | Name a, Name b => a ≠ b
  | Name _, Idx _ => False
  end.

Definition props_ordered (ps : list (pkey * value)) : Prop :=
  StronglySorted key_before ps.*1.

(** The keys [ks] of an object of kind [kd] are read as own properties. *)
Definition own_keys (kd : kind) (ks : list pkey) : Prop :=
  match kd with
  | KArray _ => Name "length" ∉ ks
  | KFunction _ => Name "name" ∉ ks
  | _ => True
  end.

(** An entry of the container at [d] that holds a plain node, and the
    entry that decoding puts in its place. *)
Definition plain_child (h : heap) (d : loc) (kv : pkey * value) : Prop :=
  ∃ c, kv.2 = VObj c ∧ c ≠ d ∧
       read_prop h (VObj c) (Name "type") = Ok (VStr "plain").

Definition decoded_child (h : heap) (kv : pkey * value) : pkey * value :=
  (kv.1, match read_prop h kv.2 (Name "data") with
         | Ok x => x
         | _ => VUndefined
         end).

(** Two worlds with the same store and the same pool. *)
Definition same_input (w1 w2 : world) : Prop :=
  w_heap w1 = w_heap w2 ∧ w_pool w1 = w_pool w2.

(** A computation whose outcome and whose effect on store and pool depend
    on the store and the pool only. *)
Definition input_determined {A} (m : M A) : Prop :=
  ∀ w1 w2, same_input w1 w2 →
           (m w1).1 = (m w2).1 ∧ same_input (m w1).2 (m w2).2.

(** Invariant of the id generator of the first script. *)
Definition idgen_inv (g : idgen) : Prop :=
  0 ≤ count g ∧
  (∀ o i, objIdMap g !! o = Some i → 0 < i ≤ count g) ∧
  (∀ o1 o2 i, objIdMap g !! o1 = Some i → objIdMap g !! o2 = Some i → o1 = o2).

Definition idgen_calls (os : list loc) (g : idgen) : idgen :=
  foldl (λ g o, (getObjectId o g).2) g os.

(* ===================================================================== *)
(** ** More predicates used in the statements *)
(* ===================================================================== *)

(** The application name [getAssociatedApplicationName] finds in the
    display string of a specifier. *)
Definition app_name (sp : specifier) : value :=
  match match_application (sp_display sp) with
  | Some name => VStr name
  | None => VNull
  end.

(** The className [wrapToJson] writes for a class guess. *)
Definition class_label (guessClass : value) : value :=
  match guessClass with
  | VUndefined => VStr "unknown"
  | _ => guessClass
  end.

(** A computation that never evaluates a specifier. *)
Definition never_evaluates {A} (m : M A) : Prop :=
  ∀ w, ∃ evs, w_events (m w).2 = w_events w ++ evs ∧ ∀ l, EvEvaluate l ∉ evs.


(** The characters of a string. *)
Fixpoint chars (s : string) : list ascii :=
  match s with
  | EmptyString => []
  | String a s' => a :: chars s'
  end.

(** The primitive documents [JSON.stringify] writes: [null], booleans,
    strings, and finite numbers, zero without a sign. *)
Definition wire_primitive (j : json) : bool :=
  match j with
  | JNull | JBool _ | JStr _ => true
  | JNum (S754_finite _ _ _) | JNum (S754_zero false) => true
  | _ => false
  end.

(** The value [JSON.parse] builds for a primitive document. *)
Definition primitive_value (j : json) : value :=
  match j with
  | JNull => VNull
  | JBool b => VBool b
  | JNum x => VNum x
  | JStr s => VStr s
  | _ => VUndefined
  end.

(** The request of the bridge function [releaseObjectWithId]: a dict
    whose member [id] is a plain number. *)
Definition release_request (x : number) : json :=
  JObj [(Name "type", JStr "dict");
        (Name "data", JObj [(Name "id", plain_doc (JNum x))])].




(* ===================================================================== *)
(** * Properties of the object pool *)
(* ===================================================================== *)

Section PoolFacts.
Implicit Types (w : world) (p : pool) (o : loc) (id : value) (k : Z).

(** [Map.prototype.get] never throws: the handler of [getObject] is dead
    code, and an absent id reads as [undefined]. *)
Lemma getObject_eq id w :
  getObject id w = (Ok (idObjectMap_get id (w_pool w)), w).
Proof. reflexivity. Qed.

Lemma getId_known o i w :
  _objectIdMap (w_pool w) !! o = Some i →
  getId o w = (Ok (_currentId (w_pool w)), w).
Proof.
  intros Hi. unfold getId, bind, get_pool. simpl.
  destruct (decide _) as [_ | Hn]; [by destruct w | ].
  destruct Hn. by exists i.
Qed.

Lemma getId_fresh o w :
  _objectIdMap (w_pool w) !! o = None →
  getId o w =
    (Ok (_currentId (w_pool w) + 1),
     with_pool (Pool (_currentId (w_pool w) + 1)
                     (<[o := _currentId (w_pool w) + 1]> (_objectIdMap (w_pool w)))
                     (<[_currentId (w_pool w) + 1 := o]> (_idObjectMap (w_pool w)))) w).
Proof.
  intros Hn. unfold getId, bind, get_pool. simpl.
  destruct (decide _) as [[i Hi] | _]; [congruence | done].
Qed.

Lemma releaseObjectWithId_eq id w :
  releaseObjectWithId id w =
    (Ok tt,
     with_pool (Pool (_currentId (w_pool w))
                     (match idObjectMap_get id (w_pool w) with
                      | VObj l => delete l (_objectIdMap (w_pool w))
                      | _ => _objectIdMap (w_pool w)
                      end)
                     (match id_key id with
                      | Some k => delete k (_idObjectMap (w_pool w))
                      | None => _idObjectMap (w_pool w)
                      end)) w).
Proof. reflexivity. Qed.

Lemma idObjectMap_get_Some id k o p :
  id_key id = Some k → _idObjectMap p !! k = Some o →
  idObjectMap_get id p = VObj o.
Proof. intros Hk Ho. unfold idObjectMap_get. rewrite Hk. simpl. by rewrite Ho. Qed.

Lemma idObjectMap_get_None id p :
  (∀ k, id_key id = Some k → _idObjectMap p !! k = None) →
  idObjectMap_get id p = VUndefined.
Proof.
  intros H. unfold idObjectMap_get.
  destruct (id_key id) as [k|]; simpl; [by rewrite (H k) | done].
Qed.

Lemma idObjectMap_get_cases id p :
  (idObjectMap_get id p = VUndefined ∧
     ∀ k, id_key id = Some k → _idObjectMap p !! k = None)
  ∨ (∃ k o, id_key id = Some k ∧ _idObjectMap p !! k = Some o ∧
            idObjectMap_get id p = VObj o).
Proof.
  unfold idObjectMap_get. destruct (id_key id) as [k|]; simpl.
  - destruct (_idObjectMap p !! k) as [o|] eqn:E.
    + right. by exists k, o.
    + left. split; [done | intros ? [= <-]; done].
  - left. split; [done | intros; discriminate].
Qed.

(** *** The invariant and its preservation *)

Lemma pool_inv_new : pool_inv new_pool.
Proof.
  split; [done | split].
  - intros o i. simpl. by rewrite !lookup_empty.
  - intros i o. simpl. by rewrite lookup_empty.
Qed.

Lemma next_id_free p :
  ids_bounded p → _idObjectMap p !! (_currentId p + 1) = None.
Proof.
  intros Hb. destruct (_idObjectMap p !! (_currentId p + 1)) as [o|] eqn:E; [|done].
  apply Hb in E. lia.
Qed.

Lemma pool_inv_getId o w :
  pool_inv (w_pool w) → pool_inv (w_pool (getId o w).2).
Proof.
  intros (Hc & Hinv & Hb).
  destruct (_objectIdMap (w_pool w) !! o) as [i|] eqn:E.
  - by rewrite (getId_known _ _ _ E).
  - rewrite (getId_fresh _ _ E). simpl.
    set (c := _currentId (w_pool w) + 1).
    assert (Hfree : _idObjectMap (w_pool w) !! c = None) by by apply next_id_free.
    split; [simpl; lia | split].
    + intros o' i'. simpl.
      rewrite !lookup_insert.
      destruct (decide (o = o')) as [<-|Ho]; destruct (decide (c = i')) as [<-|Hi].
      * done.
      * split; [intros [= ?]; done | intros H'; apply Hinv in H'; congruence].
      * split; [intros H'; apply Hinv in H'; congruence | intros [= ?]; done].
      * apply Hinv.
    + intros i' o'. simpl. rewrite lookup_insert.
      destruct (decide (c = i')) as [<-|Hi]; [intros _; unfold c; lia | ].
      intros H'. apply Hb in H'. unfold c. lia.
Qed.

Lemma pool_inv_release id w :
  pool_inv (w_pool w) → pool_inv (w_pool (releaseObjectWithId id w).2).
Proof.
  intros (Hc & Hinv & Hb). rewrite releaseObjectWithId_eq. simpl.
  destruct (idObjectMap_get_cases id (w_pool w))
    as [[-> Hnone] | (k & o & Hk & Ho & ->)].
  - assert (Heq : match id_key id with
                  | Some k => delete k (_idObjectMap (w_pool w))
                  | None => _idObjectMap (w_pool w)
                  end = _idObjectMap (w_pool w)).
    { destruct (id_key id) as [k|]; [|done]. apply delete_id. by apply Hnone. }
    rewrite Heq. by destruct (w_pool w).
  - rewrite Hk. split; [done | split].
    + intros o' i'. simpl. rewrite !lookup_delete.
      destruct (decide (o = o')) as [<-|Hne]; destruct (decide (k = i')) as [<-|Hne'].
      * done.
      * split; [done | intros H'; apply Hinv in H'; apply Hinv in Ho; congruence].
      * split; [intros H'; apply Hinv in H'; congruence | done].
      * apply Hinv.
    + intros i' o'. simpl. rewrite lookup_delete.
      destruct (decide (k = i')); [done | apply Hb].
Qed.

Lemma pool_inv_step c w :
  pool_inv (w_pool w) → pool_inv (w_pool (call_step c w)).
Proof.
  destruct c as [o | id | id]; unfold call_step.
  - apply pool_inv_getId.
  - by rewrite getObject_eq.
  - apply pool_inv_release.
Qed.

Lemma counter_step c w :
  _currentId (w_pool w) ≤ _currentId (w_pool (call_step c w)).
Proof.
  destruct c as [o | id | id]; unfold call_step.
  - destruct (_objectIdMap (w_pool w) !! o) as [i|] eqn:E.
    + by rewrite (getId_known _ _ _ E).
    + rewrite (getId_fresh _ _ E). simpl. lia.
  - by rewrite getObject_eq.
  - by rewrite releaseObjectWithId_eq.
Qed.

Lemma run_calls_snoc cs c w :
  run_calls (cs ++ [c]) w = call_step c (run_calls cs w).
Proof. unfold run_calls. by rewrite foldl_app. Qed.

Lemma run_calls_cons cs c w :
  run_calls (c :: cs) w = run_calls cs (call_step c w).
Proof. reflexivity. Qed.

Lemma pool_inv_run cs w :
  pool_inv (w_pool w) → pool_inv (w_pool (run_calls cs w)).
Proof.
  revert w. induction cs as [|c cs IH]; intros w Hw; [done|].
  rewrite run_calls_cons. apply IH. by apply pool_inv_step.
Qed.

Lemma counter_run cs w :
  _currentId (w_pool w) ≤ _currentId (w_pool (run_calls cs w)).
Proof.
  revert w. induction cs as [|c cs IH]; intros w; [done|].
  rewrite run_calls_cons. etrans; [apply (counter_step c) | apply IH].
Qed.

(** Every state a run goes through keeps its ids below the final
    counter. *)
Lemma states_bounded cs w w' i o :
  pool_inv (w_pool w) → w' ∈ states cs w →
  _idObjectMap (w_pool w') !! i = Some o →
  i ≤ _currentId (w_pool (run_calls cs w)).
Proof.
  revert w. induction cs as [|c cs IH]; intros w Hw Hin Hi.
  - simpl in Hin. apply list_elem_of_singleton in Hin as ->.
    destruct Hw as (_ & _ & Hb). apply Hb in Hi. simpl. lia.
  - simpl in Hin. apply elem_of_cons in Hin as [-> | Hin].
    + destruct Hw as (_ & _ & Hb). apply Hb in Hi.
      pose proof (counter_run (c :: cs) w). lia.
    + rewrite run_calls_cons. eapply IH; [by apply pool_inv_step | done | done].
Qed.

(** An id that is free and not above the counter is registered by no
    later call: new objects are registered above the counter. *)
Lemma free_id_step c w k :
  k ≤ _currentId (w_pool w) → _idObjectMap (w_pool w) !! k = None →
  _idObjectMap (w_pool (call_step c w)) !! k = None.
Proof.
  intros Hle Hfree. destruct c as [o | id | id]; unfold call_step.
  - destruct (_objectIdMap (w_pool w) !! o) as [i|] eqn:E.
    + by rewrite (getId_known _ _ _ E).
    + rewrite (getId_fresh _ _ E). simpl. rewrite lookup_insert_ne; [done | lia].
  - by rewrite getObject_eq.
  - rewrite releaseObjectWithId_eq. simpl.
    destruct (id_key id) as [k'|]; [|done].
    rewrite lookup_delete. by case_decide.
Qed.

Lemma free_id_run cs w k :
  k ≤ _currentId (w_pool w) → _idObjectMap (w_pool w) !! k = None →
  _idObjectMap (w_pool (run_calls cs w)) !! k = None.
Proof.
  revert w. induction cs as [|c cs IH]; intros w Hle Hfree; [done|].
  rewrite run_calls_cons. apply IH.
  - pose proof (counter_step c w). lia.
  - by apply free_id_step.
Qed.
End PoolFacts.


(** *** The id generator of the first script is stable and injective *)

Lemma getObjectId_records o g : objIdMap (getObjectId o g).2 !! o = Some (getObjectId o g).1.
Proof.
  unfold getObjectId. destruct (objIdMap g !! o) eqn:E; simpl; [done|].
  apply lookup_insert_eq.
Qed.

Lemma getObjectId_keeps o o' i g :
  objIdMap g !! o' = Some i → objIdMap (getObjectId o g).2 !! o' = Some i.
Proof.
  intros H. unfold getObjectId. destruct (objIdMap g !! o) eqn:E; simpl; [done|].
  rewrite lookup_insert_ne; [done | congruence].
Qed.

Lemma getObjectId_inv o g : idgen_inv g → idgen_inv (getObjectId o g).2.
Proof.
  intros (Hc & Hb & Hinj). unfold getObjectId.
  destruct (objIdMap g !! o) eqn:E; simpl; [done|].
  split; [simpl; lia|]. split; simpl.
  - intros o' i. rewrite lookup_insert. case_decide; [intros [= <-]; lia|].
    intros H'. apply Hb in H'. lia.
  - intros o1 o2 i. rewrite !lookup_insert.
    repeat case_decide; subst; try done.
    + intros [= <-] H'. apply Hb in H'. lia.
    + intros H' [= <-]. apply Hb in H'. lia.
    + apply Hinj.
Qed.

Lemma idgen_calls_keeps os o i g :
  objIdMap g !! o = Some i → objIdMap (idgen_calls os g) !! o = Some i.
Proof.
  revert g. induction os as [|o' os IH]; intros g H; [done|].
  apply IH. by apply getObjectId_keeps.
Qed.

Lemma idgen_calls_inv os g : idgen_inv g → idgen_inv (idgen_calls os g).
Proof.
  revert g. induction os as [|o' os IH]; intros g H; [done|].
  apply IH. by apply getObjectId_inv.
Qed.

(** [getObjectId] returns the stored id of a known object, whatever was
    registered in between, and never gives one id to two objects. *)
Lemma getObjectId_stable os o g :
  (getObjectId o (idgen_calls os (getObjectId o g).2)).1 = (getObjectId o g).1.
Proof.
  pose proof (idgen_calls_keeps os _ _ _ (getObjectId_records o g)) as H.
  unfold getObjectId at 1. by rewrite H.
Qed.

Lemma getObjectId_injective os o1 o2 g :
  idgen_inv g → o1 ≠ o2 →
  (getObjectId o2 (idgen_calls os (getObjectId o1 g).2)).1 ≠ (getObjectId o1 g).1.
Proof.
  intros Hg Hne Heq.
  set (g1 := (getObjectId o1 g).2) in *.
  set (g2 := idgen_calls os g1) in *.
  assert (Hinv : idgen_inv (getObjectId o2 g2).2).
  { apply getObjectId_inv, idgen_calls_inv, getObjectId_inv, Hg. }
  pose proof (getObjectId_records o2 g2) as H2. rewrite Heq in H2.
  pose proof (getObjectId_keeps o2 _ _ _
                (idgen_calls_keeps os _ _ _ (getObjectId_records o1 g))) as H1.
  fold g1 g2 in H1.
  destruct Hinv as (_ & _ & Hinj). by specialize (Hinj _ _ _ H1 H2).
Qed.

(** C1, handle stability: it does not hold for [getId].  On a fresh pool,
    registering object 0, then object 1, then asking again for the id of
    object 0 answers 2: the id of object 1, and not the id 1 that object 0
    received.  [getId] returns the counter instead of the stored id. *)
Theorem C1_getId_answers_the_counter :
  let w0 := empty_world in
  ∃ w1 w2 w3,
    getId 0%nat w0 = (Ok 1, w1) ∧
    getId 1%nat w1 = (Ok 2, w2) ∧
    getId 0%nat w2 = (Ok 2, w3) ∧
    _objectIdMap (w_pool w3) !! 0%nat = Some 1 ∧
    _objectIdMap (w_pool w3) !! 1%nat = Some 2.
Proof.
  simpl. eexists _, _, _.
  split; [reflexivity|]. split; [reflexivity|]. split; [reflexivity|].
  split; reflexivity.
Qed.

(** C5 as stated does not hold: on a fresh pool, register object 0 (id 1)
    and object 1 (id 2), then release id 2.  The lookup of id 2 answers the
    ordinary value [undefined], and asking for the id of object 0, which is
    still registered under 1, answers 2: the released id is handed out
    again, although no object is registered under it. *)
Lemma C5_released_id_is_answered_again :
  let w0 := empty_world in
  ∃ w1 w2 w3 w4,
    getId 0%nat w0 = (Ok 1, w1) ∧
    getId 1%nat w1 = (Ok 2, w2) ∧
    releaseObjectWithId (VNum (num_of_Z 2)) w2 = (Ok tt, w3) ∧
    getObject (VNum (num_of_Z 2)) w3 = (Ok VUndefined, w3) ∧
    getId 0%nat w3 = (Ok 2, w4) ∧
    _objectIdMap (w_pool w4) !! 0%nat = Some 1 ∧
    _idObjectMap (w_pool w4) !! 2 = None.
Proof.
  simpl. eexists _, _, _, _.
  repeat (split; [reflexivity|]). reflexivity.
Qed.

(** C5, release invalidates and a released id is never registered again:
    in a pool reached from the empty one, after releasing an allocated id
    the lookup of that id answers [undefined]; asking again for the id of
    the same object registers it under a new id, which the call returns
    and which no earlier state of the pool ever held; and whatever calls
    follow the release, no object is registered under the released id
    again: its lookup answers [undefined] in every later state. *)
Theorem C5_released_id_is_never_registered_again
    (cs : list pool_call) (w0 : world) (id : value) (k : Z) (o : loc) :
  w_pool w0 = new_pool →
  id_key id = Some k →
  _idObjectMap (w_pool (run_calls cs w0)) !! k = Some o →
  ∃ w1 w2 n,
    releaseObjectWithId id (run_calls cs w0) = (Ok tt, w1) ∧
    getObject id w1 = (Ok VUndefined, w1) ∧
    getId o w1 = (Ok n, w2) ∧
    _idObjectMap (w_pool w2) !! n = Some o ∧
    _objectIdMap (w_pool w2) !! o = Some n ∧
    n ≠ k ∧
    (∀ w', w' ∈ states cs w0 ++ [w1] → _idObjectMap (w_pool w') !! n = None) ∧
    (∀ cs', _idObjectMap (w_pool (run_calls cs' w1)) !! k = None ∧
            getObject id (run_calls cs' w1) = (Ok VUndefined, run_calls cs' w1)).
Proof.
  intros H0 Hk Ho. set (w := run_calls cs w0) in *.
  assert (Hinv0 : pool_inv (w_pool w0)) by (rewrite H0; apply pool_inv_new).
  assert (Hinv : pool_inv (w_pool w)) by by apply pool_inv_run.
  pose proof (pool_inv_release id w Hinv) as Hinv1.
  rewrite releaseObjectWithId_eq in Hinv1 |- *.
  rewrite (idObjectMap_get_Some id k o _ Hk Ho) in Hinv1 |- *. rewrite Hk in Hinv1 |- *.
  set (w1 := with_pool _ w) in *.
  assert (Hgone : _objectIdMap (w_pool w1) !! o = None) by apply lookup_delete_eq.
  assert (Hfree : _idObjectMap (w_pool w1) !! k = None) by apply lookup_delete_eq.
  destruct Hinv as (_ & _ & Hb). pose proof (Hb _ _ Ho) as Hle.
  eexists w1, _, _. split; [done|]. split.
  { rewrite getObject_eq. f_equal. f_equal. apply idObjectMap_get_None.
    intros k' Hk'. by assert (k' = k) as -> by congruence. }
  split; [apply (getId_fresh _ _ Hgone)|]. simpl.
  split; [apply lookup_insert_eq|]. split; [apply lookup_insert_eq|].
  split; [lia|]. split.
  - intros w' Hin. apply elem_of_app in Hin as [Hin | Hin].
    + destruct (_idObjectMap (w_pool w') !! _) as [o'|] eqn:E; [|done].
      pose proof (states_bounded _ _ _ _ _ Hinv0 Hin E). fold w in H. lia.
    + apply list_elem_of_singleton in Hin as ->. simpl.
      rewrite lookup_delete_ne; [|lia]. by apply next_id_free.
  - intros cs'.
    assert (Hlater : _idObjectMap (w_pool (run_calls cs' w1)) !! k = None)
      by (apply free_id_run; [simpl; lia | done]).
    split; [done|].
    rewrite getObject_eq. f_equal. f_equal. apply idObjectMap_get_None.
    intros k' Hk'. by assert (k' = k) as -> by congruence.
Qed.

Lemma C5_released_id_is_never_registered_again_witness :
  ∃ w1 w2 n,
    releaseObjectWithId (VNum (num_of_Z 1))
      (run_calls [CallGetId 0%nat] (empty_world)) = (Ok tt, w1) ∧
    getObject (VNum (num_of_Z 1)) w1 = (Ok VUndefined, w1) ∧
    getId 0%nat w1 = (Ok n, w2) ∧
    _idObjectMap (w_pool w2) !! n = Some 0%nat ∧
    _objectIdMap (w_pool w2) !! 0%nat = Some n ∧
    n ≠ 1 ∧
    (∀ w', w' ∈ states [CallGetId 0%nat] (empty_world) ++ [w1] →
           _idObjectMap (w_pool w') !! n = None) ∧
    (∀ cs', _idObjectMap (w_pool (run_calls cs' w1)) !! 1 = None ∧
            getObject (VNum (num_of_Z 1)) (run_calls cs' w1)
            = (Ok VUndefined, run_calls cs' w1)).
Proof.
  apply (C5_released_id_is_never_registered_again
           [CallGetId 0%nat] (empty_world) (VNum (num_of_Z 1)) 1 0%nat);
    reflexivity.
Defined.

(** C6, pool state invariant: in every state reached from the empty pool
    by calls of [getId], [getObject] and [releaseObjectWithId], the two
    maps are inverse to each other, no call decreases the counter, and the
    id the counter gives to a new object was in use in no earlier state,
    released or not. *)
Theorem C6_pool_invariant (cs : list pool_call) (w0 : world) :
  w_pool w0 = new_pool →
  mutual_inverses (w_pool (run_calls cs w0)) ∧
  (∀ c, _currentId (w_pool (run_calls cs w0))
        ≤ _currentId (w_pool (call_step c (run_calls cs w0)))) ∧
  (∀ o, _objectIdMap (w_pool (run_calls cs w0)) !! o = None →
        ∃ n w',
          getId o (run_calls cs w0) = (Ok n, w') ∧
          _idObjectMap (w_pool w') !! n = Some o ∧
          ∀ wp, wp ∈ states cs w0 → _idObjectMap (w_pool wp) !! n = None).
Proof.
  intros H0.
  assert (Hinv0 : pool_inv (w_pool w0)) by (rewrite H0; apply pool_inv_new).
  pose proof (pool_inv_run cs w0 Hinv0) as Hinv.
  split; [apply Hinv|]. split; [intros c; apply counter_step|].
  intros o Hnone. eexists _, _. split; [apply (getId_fresh _ _ Hnone)|].
  simpl. split; [apply lookup_insert_eq|].
  intros wp Hin.
  destruct (_idObjectMap (w_pool wp) !! _) as [o'|] eqn:E; [|done].
  pose proof (states_bounded _ _ _ _ _ Hinv0 Hin E). lia.
Qed.

Lemma C6_pool_invariant_witness :
  let w0 := empty_world in
  let cs := [CallGetId 0%nat; CallGetId 1%nat; CallRelease (VNum (num_of_Z 1))] in
  mutual_inverses (w_pool (run_calls cs w0)) ∧
  (∀ c, _currentId (w_pool (run_calls cs w0))
        ≤ _currentId (w_pool (call_step c (run_calls cs w0)))) ∧
  (∀ o, _objectIdMap (w_pool (run_calls cs w0)) !! o = None →
        ∃ n w',
          getId o (run_calls cs w0) = (Ok n, w') ∧
          _idObjectMap (w_pool w') !! n = Some o ∧
          ∀ wp, wp ∈ states cs w0 → _idObjectMap (w_pool wp) !! n = None).
Proof.
  exact (C6_pool_invariant
           [CallGetId 0%nat; CallGetId 1%nat; CallRelease (VNum (num_of_Z 1))]
           (empty_world) eq_refl).
Defined.


(* ===================================================================== *)
(** * Facts on host numbers *)
(* ===================================================================== *)

Section NumberFacts.

(** [shl m k] is [m * 2^k] on mantissas. *)
Lemma shl_Z (k : nat) (m : positive) :
  Z.pos (Nat.iter k xO m) = Z.pos m * 2 ^ Z.of_nat k.
Proof.
  induction k as [|k IH]; [simpl; lia|].
  rewrite Nat2Z.inj_succ, Z.pow_succ_r by lia.
  simpl. rewrite (Pos2Z.inj_xO (Nat.iter k xO m)), IH. lia.
Qed.

Lemma shl_of_Z (k : Z) (m M : positive) :
  0 ≤ k → Z.pos M = Z.pos m * 2 ^ k → M = Nat.iter (Z.to_nat k) xO m.
Proof.
  intros Hk HM. apply Pos2Z.inj. rewrite shl_Z, Z2Nat.id by done. done.
Qed.

Lemma digits_shl (k : nat) (m : positive) :
  Z.pos (digits2_pos (Nat.iter k xO m)) = Z.pos (digits2_pos m) + Z.of_nat k.
Proof.
  induction k as [|k IH]; [simpl; lia|].
  rewrite Nat2Z.inj_succ. simpl. rewrite Pos2Z.inj_succ, IH. lia.
Qed.

Lemma digits_bounds (m : positive) :
  2 ^ (Z.pos (digits2_pos m) - 1) ≤ Z.pos m < 2 ^ Z.pos (digits2_pos m).
Proof.
  induction m as [p IH | p IH |]; simpl digits2_pos.
  - rewrite Pos2Z.inj_succ, (Pos2Z.inj_xI p).
    replace (Z.succ (Z.pos (digits2_pos p)) - 1)
      with (Z.succ (Z.pos (digits2_pos p) - 1)) by lia.
    rewrite !Z.pow_succ_r by lia. lia.
  - rewrite Pos2Z.inj_succ, (Pos2Z.inj_xO p).
    replace (Z.succ (Z.pos (digits2_pos p)) - 1)
      with (Z.succ (Z.pos (digits2_pos p) - 1)) by lia.
    rewrite !Z.pow_succ_r by lia. lia.
  - simpl. lia.
Qed.

Lemma digits_le (m : positive) (n : Z) :
  0 ≤ n → Z.pos m < 2 ^ n → Z.pos (digits2_pos m) ≤ n.
Proof.
  intros Hn Hm. pose proof (digits_bounds m) as [Hlo _].
  destruct (decide (Z.pos (digits2_pos m) ≤ n)) as [|Hgt]; [done|].
  assert (2 ^ n ≤ 2 ^ (Z.pos (digits2_pos m) - 1)) by (apply Z.pow_le_mono_r; lia).
  lia.
Qed.

(** Shifting right by [k] bits a mantissa whose [k] low bits are zero. *)
Lemma iter_pos_nat {A} (f : A → A) (n : positive) (x : A) :
  SpecFloat.iter_pos f n x = Nat.iter (Pos.to_nat n) f x.
Proof.
  revert x. induction n as [n IH | n IH |]; intros x; cbn [SpecFloat.iter_pos].
  - rewrite !IH, Pos2Nat.inj_xI, Nat.iter_succ_r.
    replace (2 * Pos.to_nat n)%nat with (Pos.to_nat n + Pos.to_nat n)%nat by lia.
    by rewrite Nat.iter_add.
  - rewrite !IH, Pos2Nat.inj_xO.
    replace (2 * Pos.to_nat n)%nat with (Pos.to_nat n + Pos.to_nat n)%nat by lia.
    by rewrite Nat.iter_add.
  - done.
Qed.

Lemma shr_1_shl (k : nat) (m : positive) :
  Nat.iter k shr_1 (Build_shr_record (Z.pos (Nat.iter k xO m)) false false)
  = Build_shr_record (Z.pos m) false false.
Proof.
  induction k as [|k IH]; [done|].
  rewrite Nat.iter_succ_r. simpl. apply IH.
Qed.

Lemma shr_exact (k : nat) (m : positive) (e : Z) :
  shr (Build_shr_record (Z.pos (Nat.iter k xO m)) false false) e (Z.of_nat k)
  = (Build_shr_record (Z.pos m) false false, e + Z.of_nat k).
Proof.
  destruct k as [|k]; [simpl; f_equal; lia|].
  change (Z.of_nat (S k)) with (Z.pos (Pos.of_succ_nat k)).
  unfold shr. by rewrite iter_pos_nat, SuccNat2Pos.id_succ, shr_1_shl.
Qed.

Lemma shr_nonpos (mrs : shr_record) (e n : Z) : n ≤ 0 → shr mrs e n = (mrs, e).
Proof. intros Hn. destruct n as [|p|p]; [done | lia | done]. Qed.

Lemma fexp_eq (z : Z) : fexp prec emax z = Z.max (z - 53) (-1074).
Proof. reflexivity. Qed.

(** Rounding is the identity on a mantissa that fits: when the bits to
    drop are zero, [binary_round_aux] only renormalizes. *)
Lemma binary_round_aux_shl (s : bool) (m : positive) (k : nat) (e : Z) :
  Z.max e (fexp prec emax (Z.pos (digits2_pos m) + Z.of_nat k + e)) = e + Z.of_nat k →
  e + Z.of_nat k ≤ 971 →
  binary_round_aux prec emax s (Z.pos (Nat.iter k xO m)) e loc_Exact
  = S754_finite s m (e + Z.of_nat k).
Proof.
  intros Hmax Hle. rewrite fexp_eq in Hmax.
  unfold binary_round_aux, shr_fexp.
  cbn [Zdigits2 shr_record_of_loc]. rewrite digits_shl, fexp_eq.
  destruct (decide (k = 0%nat)) as [-> | Hk].
  - simpl Nat.iter. rewrite shr_nonpos by lia.
    cbn [shr_m loc_of_shr_record round_nearest_even Zdigits2 shr_record_of_loc].
    rewrite fexp_eq, shr_nonpos by lia. cbn [shr_m].
    replace (e + Z.of_nat 0) with e by lia.
    destruct (Z.leb_spec e (emax - prec)); [done | unfold emax, prec in *; lia].
  - replace (Z.max (Z.pos (digits2_pos m) + Z.of_nat k + e - 53) (-1074) - e)
      with (Z.of_nat k) by lia.
    rewrite shr_exact.
    cbn [shr_m loc_of_shr_record round_nearest_even Zdigits2 shr_record_of_loc].
    rewrite fexp_eq, shr_nonpos by lia. cbn [shr_m].
    destruct (Z.leb_spec (e + Z.of_nat k) (emax - prec));
      [done | unfold emax, prec in *; lia].
Qed.

Lemma binary_round_aux_fits (s : bool) (m : positive) (e : Z) :
  Z.max e (fexp prec emax (Z.pos (digits2_pos m) + e)) = e →
  e ≤ 971 →
  binary_round_aux prec emax s (Z.pos m) e loc_Exact = S754_finite s m e.
Proof.
  intros Hmax He. pose proof (binary_round_aux_shl s m 0 e) as H.
  simpl Nat.iter in H. rewrite H; [f_equal; lia | | lia].
  replace (Z.pos (digits2_pos m) + Z.of_nat 0 + e)
    with (Z.pos (digits2_pos m) + e) by lia. lia.
Qed.

Lemma binary_round_aux_exact (s : bool) (M m' : positive) (e E' : Z) :
  E' = Z.max e (fexp prec emax (Z.pos (digits2_pos M) + e)) →
  Z.pos M = Z.pos m' * 2 ^ (E' - e) →
  E' ≤ 971 →
  binary_round_aux prec emax s (Z.pos M) e loc_Exact = S754_finite s m' E'.
Proof.
  intros HEdef HM HE'.
  assert (Hk : 0 ≤ E' - e) by lia.
  pose proof (shl_of_Z _ _ _ Hk HM) as HMeq. clear HM. subst M.
  rewrite digits_shl in HEdef. rewrite Z2Nat.id in HEdef by done.
  rewrite binary_round_aux_shl.
  - f_equal. lia.
  - rewrite Z2Nat.id by done.
    replace (Z.pos (digits2_pos m') + (E' - e) + e)
      with (Z.pos (digits2_pos m') + (E' - e) + e) by lia.
    lia.
  - lia.
Qed.

Lemma shl_align_eq (mx : positive) (ex ex' : Z) :
  shl_align mx ex ex' = (Nat.iter (Z.to_nat (ex - ex')) xO mx, Z.min ex ex').
Proof.
  unfold shl_align. destruct (ex' - ex) as [|d|d] eqn:E.
  - replace (ex - ex') with 0 by lia. simpl. f_equal. lia.
  - replace (Z.to_nat (ex - ex')) with 0%nat by lia. simpl. f_equal. lia.
  - replace (ex - ex') with (Z.pos d) by lia.
    rewrite Z2Nat.inj_pos, Pos2Nat.inj_iter. f_equal. lia.
Qed.

(** The number of a positive integer below 2^53: its 53-bit normal form. *)
Lemma binary_round_int (s : bool) (T : positive) :
  Z.pos T < 2 ^ 53 →
  binary_round prec emax s T 0
  = S754_finite s (Nat.iter (Z.to_nat (53 - Z.pos (digits2_pos T))) xO T)
                (Z.pos (digits2_pos T) - 53).
Proof.
  intros HT. pose proof (digits_le T 53 ltac:(lia) HT) as Hd.
  unfold binary_round. rewrite shl_align_eq, fexp_eq.
  replace (0 - Z.max (Z.pos (digits2_pos T) + 0 - 53) (-1074))
    with (53 - Z.pos (digits2_pos T)) by lia.
  replace (Z.min 0 (Z.max (Z.pos (digits2_pos T) + 0 - 53) (-1074)))
    with (Z.pos (digits2_pos T) - 53) by lia.
  rewrite binary_round_aux_fits; [done | | lia].
  rewrite digits_shl, fexp_eq, Z2Nat.id by lia. lia.
Qed.

Lemma num_trunc_shl (s : bool) (T : positive) (k : nat) :
  num_trunc (S754_finite s (Nat.iter k xO T) (- Z.of_nat k))
  = Some (if s then Z.neg T else Z.pos T).
Proof.
  unfold num_trunc. destruct k as [|k].
  - simpl. destruct s; f_equal; lia.
  - change (- Z.of_nat (S k)) with (Z.neg (Pos.of_succ_nat k)).
    cbv iota beta. rewrite shl_Z.
    change (Z.pos (Pos.of_succ_nat k)) with (Z.of_nat (S k)).
    rewrite Z.div_mul by (apply Z.pow_nonzero; lia). by destruct s.
Qed.

Lemma num_to_Z_shl (s : bool) (T : positive) (k : nat) :
  num_to_Z (S754_finite s (Nat.iter k xO T) (- Z.of_nat k))
  = Some (if s then Z.neg T else Z.pos T).
Proof.
  unfold num_to_Z. destruct k as [|k].
  - simpl. destruct s; f_equal; lia.
  - change (- Z.of_nat (S k)) with (Z.neg (Pos.of_succ_nat k)).
    cbv iota beta. rewrite shl_Z.
    change (Z.pos (Pos.of_succ_nat k)) with (Z.of_nat (S k)).
    rewrite Z.mod_mul, decide_True by (done || apply Z.pow_nonzero; lia).
    rewrite Z.div_mul by (apply Z.pow_nonzero; lia). by destruct s.
Qed.

(** An id written into a reference node selects its own key again. *)
Lemma id_key_num_of_Z (z : Z) :
  Z.abs z < 2 ^ 53 → id_key (VNum (num_of_Z z)) = Some z.
Proof.
  intros Hz. unfold id_key, num_of_Z, binary_normalize.
  destruct z as [|T|T]; [done | |].
  - rewrite binary_round_int by lia.
    pose proof (digits_le T 53 ltac:(lia) ltac:(lia)) as Hd.
    replace (Z.pos (digits2_pos T) - 53)
      with (- Z.of_nat (Z.to_nat (53 - Z.pos (digits2_pos T)))) by lia.
    apply num_to_Z_shl.
  - rewrite binary_round_int by lia.
    pose proof (digits_le T 53 ltac:(lia) ltac:(lia)) as Hd.
    replace (Z.pos (digits2_pos T) - 53)
      with (- Z.of_nat (Z.to_nat (53 - Z.pos (digits2_pos T)))) by lia.
    apply num_to_Z_shl.
Qed.

Lemma TimeClip_int (z : Z) :
  Z.abs z ≤ 8640000000000000 → TimeClip (num_of_Z z) = Some z.
Proof.
  intros Hz. unfold TimeClip, num_of_Z, binary_normalize.
  destruct z as [|T|T].
  - done.
  - rewrite binary_round_int by lia.
    pose proof (digits_le T 53 ltac:(lia) ltac:(lia)) as Hd.
    replace (Z.pos (digits2_pos T) - 53)
      with (- Z.of_nat (Z.to_nat (53 - Z.pos (digits2_pos T)))) by lia.
    rewrite num_trunc_shl. by rewrite decide_True by lia.
  - rewrite binary_round_int by lia.
    pose proof (digits_le T 53 ltac:(lia) ltac:(lia)) as Hd.
    replace (Z.pos (digits2_pos T) - 53)
      with (- Z.of_nat (Z.to_nat (53 - Z.pos (digits2_pos T)))) by lia.
    rewrite num_trunc_shl. by rewrite decide_True by lia.
Qed.

Lemma div_eucl_exact (q b : Z) : b ≠ 0 → Z.div_eucl (q * b) b = (q, 0).
Proof.
  intros Hb. pose proof (Z.div_mul q b Hb) as Hq.
  pose proof (Z.mod_mul q b Hb) as Hr.
  unfold Z.div, Z.modulo in Hq, Hr.
  destruct (Z.div_eucl (q * b) b) as [q' r']. simpl in *. congruence.
Qed.

(** 1000 as a host number: mantissa 125 * 2^46, exponent -43. *)
Lemma thousand_eq :
  num_of_Z 1000 = S754_finite false 8796093022208000 (-43).
Proof. reflexivity. Qed.

Lemma thousand_mantissa : Z.pos 8796093022208000 = 125 * 2 ^ 46.
Proof. reflexivity. Qed.

Lemma div_core_1000 (T u : positive) (a : nat) :
  Z.pos T = 125 * Z.pos u →
  Z.of_nat a = 53 - Z.pos (digits2_pos T) →
  SFdiv_core_binary prec emax (Z.pos (Nat.iter a xO T)) (Z.pos (digits2_pos T) - 53)
                    (Z.pos 8796093022208000) (-43)
  = (Z.pos (Nat.iter (a + 7) xO u), Z.pos (digits2_pos T) - 63, loc_Exact).
Proof.
  intros HT Ha. unfold SFdiv_core_binary. cbn [Zdigits2]. cbv zeta.
  rewrite digits_shl, fexp_eq.
  change (Z.pos (digits2_pos 8796093022208000)) with 53.
  set (dT := Z.pos (digits2_pos T)) in *.
  replace (Z.min (Z.max (dT + Z.of_nat a + (dT - 53) - (53 + -43) - 53) (-1074))
                 (dT - 53 - -43))
    with (dT - 63) by lia.
  replace (dT - 53 - -43 - (dT - 63)) with 53 by lia.
  cbv iota. rewrite Z.shiftl_mul_pow2 by lia.
  assert (Heq : Z.pos (Nat.iter a xO T) * 2 ^ 53
                = Z.pos (Nat.iter (a + 7) xO u) * Z.pos 8796093022208000).
  { rewrite !shl_Z, thousand_mantissa, HT, Nat2Z.inj_add, Z.pow_add_r by lia.
    change (2 ^ Z.of_nat 7) with 128. change (2 ^ 53) with (128 * 2 ^ 46). ring. }
  rewrite Heq, div_eucl_exact by done. reflexivity.
Qed.

(** Dividing a multiple of 125 by 1000 is exact. *)
Lemma num_div_1000 (s : bool) (T u : positive) :
  Z.pos T = 125 * Z.pos u →
  Z.pos T < 2 ^ 53 →
  ∃ b : nat,
    num_div (binary_round prec emax s T 0) (num_of_Z 1000)
    = S754_finite s (Nat.iter b xO u) (- 3 - Z.of_nat b).
Proof.
  intros HT Hlt.
  pose proof (digits_le T 53 ltac:(lia) Hlt) as HdT.
  assert (Hu : Z.pos u < 2 ^ 53) by lia.
  pose proof (digits_le u 53 ltac:(lia) Hu) as Hdu.
  rewrite binary_round_int, thousand_eq by done.
  unfold num_div. cbn [SFdiv].
  rewrite (div_core_1000 T u (Z.to_nat (53 - Z.pos (digits2_pos T))) HT) by lia.
  rewrite xorb_false_r.
  set (dT := Z.pos (digits2_pos T)) in *. set (du := Z.pos (digits2_pos u)) in *.
  set (E' := Z.max (dT - 63) (du - 56)).
  exists (Z.to_nat (- 3 - E')).
  rewrite (binary_round_aux_exact s _ (Nat.iter (Z.to_nat (- 3 - E')) xO u) _ E').
  - f_equal. lia.
  - rewrite digits_shl, fexp_eq. fold du. lia.
  - rewrite !shl_Z, <- Z.mul_assoc, <- Z.pow_add_r by lia. do 2 f_equal. lia.
  - lia.
Qed.

(** Multiplying the exact quotient back by 1000 is exact. *)
Lemma num_mul_1000 (s : bool) (T u : positive) (b : nat) :
  Z.pos T = 125 * Z.pos u →
  Z.pos T < 2 ^ 53 →
  ∃ c : nat,
    num_mul (S754_finite s (Nat.iter b xO u) (- 3 - Z.of_nat b)) (num_of_Z 1000)
    = S754_finite s (Nat.iter c xO T) (- Z.of_nat c).
Proof.
  intros HT Hlt.
  pose proof (digits_le T 53 ltac:(lia) Hlt) as HdT.
  rewrite thousand_eq. unfold num_mul. cbn [SFmul]. rewrite xorb_false_r.
  assert (HM : (Nat.iter b xO u * 8796093022208000)%positive
               = Nat.iter (b + 46) xO T).
  { apply Pos2Z.inj.
    rewrite Pos2Z.inj_mul, !shl_Z, thousand_mantissa, HT, Nat2Z.inj_add, Z.pow_add_r by lia.
    change (Z.of_nat 46) with 46. ring. }
  rewrite HM.
  set (dT := Z.pos (digits2_pos T)) in *.
  set (E3 := Z.max (- 46 - Z.of_nat b) (dT - 53)).
  exists (Z.to_nat (- E3)).
  rewrite (binary_round_aux_exact s _ (Nat.iter (Z.to_nat (- E3)) xO T) _ E3).
  - f_equal. lia.
  - rewrite digits_shl, fexp_eq. fold dT. lia.
  - rewrite !shl_Z, <- Z.mul_assoc, <- Z.pow_add_r by lia. do 2 f_equal. lia.
  - lia.
Qed.

Lemma scale_roundtrip_pos (s : bool) (T : positive) :
  (125 | Z.pos T) → Z.pos T ≤ 8640000000000000 →
  TimeClip (num_mul (num_div (binary_round prec emax s T 0) (num_of_Z 1000))
                    (num_of_Z 1000))
  = Some (if s then Z.neg T else Z.pos T).
Proof.
  intros [u Hu] HT.
  destruct u as [|u|u]; [lia | | lia].
  assert (HT' : Z.pos T = 125 * Z.pos u) by lia.
  destruct (num_div_1000 s T u HT' ltac:(lia)) as [b ->].
  destruct (num_mul_1000 s T u b HT' ltac:(lia)) as [c ->].
  unfold TimeClip. rewrite num_trunc_shl.
  destruct s; by rewrite decide_True by lia.
Qed.

(** The scaling of a time value by 1/1000 and back is the identity when
    the time value is a multiple of 125 ms. *)
Lemma scale_roundtrip (t : Z) :
  (125 | t) → Z.abs t ≤ 8640000000000000 →
  TimeClip (num_mul (num_div (getTime (Some t)) (num_of_Z 1000)) (num_of_Z 1000))
  = Some t.
Proof.
  intros Hdiv Ht. destruct t as [|T|T].
  - reflexivity.
  - apply (scale_roundtrip_pos false T); [done | lia].
  - apply (scale_roundtrip_pos true T); [|lia].
    destruct Hdiv as [u Hu]. exists (- u). lia.
Qed.
End NumberFacts.


(* ===================================================================== *)
(** * Properties of the translator *)
(* ===================================================================== *)

Lemma bind_ok {A B} (m : M A) (f : A → M B) (a : A) (w w' : world) :
  m w = (Ok a, w') → bind m f w = f a w'.
Proof. intros H. unfold bind. by rewrite H. Qed.

Lemma bind_throw {A B} (m : M A) (f : A → M B) (e : error) (w w' : world) :
  m w = (Throw e, w') → bind m f w = (Throw e, w').
Proof. intros H. unfold bind. by rewrite H. Qed.

Lemma try_catch_ok {A} (m : M A) (h : error → M A) (a : A) (w w' : world) :
  m w = (Ok a, w') → try_catch m h w = (Ok a, w').
Proof. intros H. unfold try_catch. by rewrite H. Qed.

Lemma try_catch_throw {A} (m : M A) (h : error → M A) (e : error) (w w' : world) :
  m w = (Throw e, w') → try_catch m h w = h e w'.
Proof. intros H. unfold try_catch. by rewrite H. Qed.

Ltac run_M :=
  unfold bind, ret, throw, diverge, try_catch, get_heap, get_pool, put_heap,
    put_pool, emit, console_log, alloc, of_host in *.

Lemma specifier_of_obj (h : heap) (l : loc) (sp : specifier) :
  heap_kind h l = KSpecifier sp → specifier_of h (VObj l) = Some (l, sp).
Proof. intros H. unfold specifier_of. by rewrite H. Qed.

(** The class guess only talks to the Automation layer: it asks for the
    class, never for the value. *)
Lemma guessClassOfSpecifier_frame (v : value) (w : world) :
  ∃ evs, (guessClassOfSpecifier v w).2 = with_events (w_events w ++ evs) w ∧
         ∀ l, EvEvaluate l ∉ evs.
Proof.
  unfold guessClassOfSpecifier, guessIsSpecifierContainer. run_M. simpl.
  destruct (specifier_of (w_heap w) v) as [[l sp]|] eqn:E; simpl.
  2: { exists []. split; [destruct w; unfold with_events; simpl; by rewrite app_nil_r | ].
       intros l. apply not_elem_of_nil. }
  case_decide; simpl.
  { exists [EvClassOf l]. split; [done|]. intros l' [=]%list_elem_of_singleton. }
  rewrite E. simpl.
  destruct (sp_whose sp && sp_at sp); simpl.
  { exists [EvClassOf l]. split; [done|]. intros l' [=]%list_elem_of_singleton. }
  destruct (sp_class sp) as [[r | e]|]; simpl.
  - exists [EvClassOf l; EvClassQuery l].
    split; [unfold with_events; simpl; by rewrite <- app_assoc|].
    intros l' Hin. by repeat (apply elem_of_cons in Hin as [? | Hin]; [done|]); apply elem_of_nil in Hin.
  - exists [EvClassOf l; EvClassQuery l].
    split; [case_decide; unfold with_events; simpl; by rewrite <- app_assoc|].
    intros l' Hin. by repeat (apply elem_of_cons in Hin as [? | Hin]; [done|]); apply elem_of_nil in Hin.
  - exists [EvClassOf l]. split; [done|]. intros l' [=]%list_elem_of_singleton.
Qed.

Lemma getId_frame (o : loc) (w : world) :
  ∃ n p, getId o w = (Ok n, with_pool p w).
Proof.
  destruct (_objectIdMap (w_pool w) !! o) as [i|] eqn:E.
  - rewrite (getId_known _ _ _ E). eexists _, (w_pool w). by destruct w.
  - rewrite (getId_fresh _ _ E). by eexists _, _.
Qed.

Lemma getId_with_events (o : loc) (evs : list event) (w : world) :
  getId o (with_events evs w) = ((getId o w).1, with_events evs (getId o w).2).
Proof. unfold getId. run_M. simpl. by destruct (decide _). Qed.

(** C4, no implicit dereference on unknown class: for a specifier whose
    class guess is [undefined], [wrapToJson] returns a new reference node
    with className "unknown", carrying the id [getId] gives and the
    application name, and the only Automation calls it makes are class
    and display-string queries: the specifier is never evaluated. *)
Theorem C4_unknown_class_is_not_evaluated
    (fuel : nat) (w : world) (l : loc) (sp : specifier) :
  heap_kind (w_heap w) l = KSpecifier sp →
  (guessClassOfSpecifier (VObj l) w).1 = Ok VUndefined →
  ∃ objId app evs w',
    wrapToJson (S fuel) (VObj l) w = (Ok (VObj (length (w_heap w))), w') ∧
    w_heap w' = w_heap w ++
      [reference_node objId [("app", app); ("className", VStr "unknown")]] ∧
    (getId l w).1 = Ok objId ∧
    w_pool w' = w_pool (getId l w).2 ∧
    (getAssociatedApplicationName (VObj l) w).1 = Ok app ∧
    w_events w' = w_events w ++ evs ∧
    ∀ l', EvEvaluate l' ∉ evs.
Proof.
  intros Hk Hg.
  destruct (guessClassOfSpecifier_frame (VObj l) w) as (evs & Hw1 & Hevs).
  destruct (guessClassOfSpecifier (VObj l) w) as [r w1] eqn:Eg.
  simpl in Hg, Hw1. subst r w1.
  destruct (getId_frame l w) as (n & p & Hid).
  pose proof (getId_with_events l (w_events w ++ evs) w) as Hid'.
  rewrite Hid in Hid'. simpl in Hid'.
  set (app := match match_application (sp_display sp) with
              | Some name => VStr name
              | None => VNull
              end).
  assert (Happ : ∀ w0, w_heap w0 = w_heap w →
            getAssociatedApplicationName (VObj l) w0
            = (Ok app, with_events (w_events w0 ++ [EvDisplayString l]) w0)).
  { intros w0 Hw0. unfold getAssociatedApplicationName. run_M.
    rewrite Hw0, (specifier_of_obj _ _ _ Hk). unfold app.
    by destruct (match_application (sp_display sp)). }
  exists n, app, (evs ++ [EvDisplayString l]).
  exists (with_heap
            (w_heap w ++ [reference_node n [("app", app); ("className", VStr "unknown")]])
            (with_events (w_events w ++ evs ++ [EvDisplayString l]) (with_pool p w))).
  split.
  { cbn [wrapToJson isJsonNode]. rewrite (bind_ok _ _ (w_heap w) w w) by done.
    cbv beta. rewrite (specifier_of_obj _ _ _ Hk). cbv beta iota.
    rewrite (bind_ok _ _ _ _ _ Eg). cbv beta iota.
    rewrite (bind_ok _ _ _ _ _ Hid'). cbv beta.
    erewrite bind_ok; [|by apply Happ].
    unfold alloc, with_heap, with_events, with_pool. simpl. by rewrite <- app_assoc. }
  rewrite Hid, (Happ w eq_refl). simpl.
  repeat split; try done. 
  intros l' Hin. apply elem_of_app in Hin as [Hin | Hin]; [by apply (Hevs l')|].
  by apply list_elem_of_singleton in Hin.
Qed.

Lemma C4_unknown_class_is_not_evaluated_witness :
  ∃ objId app evs w',
    wrapToJson 1 (VObj 0%nat) specifier_world
    = (Ok (VObj (length (w_heap specifier_world))), w') ∧
    w_heap w' = w_heap specifier_world ++
      [reference_node objId [("app", app); ("className", VStr "unknown")]] ∧
    (getId 0%nat specifier_world).1 = Ok objId ∧
    w_pool w' = w_pool (getId 0%nat specifier_world).2 ∧
    (getAssociatedApplicationName (VObj 0%nat) specifier_world).1 = Ok app ∧
    w_events w' = w_events specifier_world ++ evs ∧
    ∀ l', EvEvaluate l' ∉ evs.
Proof.
  apply (C4_unknown_class_is_not_evaluated 0 specifier_world 0%nat unknown_specifier);
    reflexivity.
Defined.


(** ** Encoding allocates and never overwrites *)

Lemma preserved_refl n w : preserved n w w.
Proof. by repeat split. Qed.

Lemma preserved_trans n w1 w2 w3 :
  preserved n w1 w2 → preserved n w2 w3 → preserved n w1 w3.
Proof.
  intros (H1 & H2 & H3) (H4 & H5 & H6). repeat split; [congruence | lia | congruence].
Qed.

Lemma keeps_ret {A} n (a : A) : keeps n (ret a).
Proof. intros w _. apply preserved_refl. Qed.

Lemma keeps_throw {A} n e : keeps n (@throw A e).
Proof. intros w _. apply preserved_refl. Qed.

Lemma keeps_diverge {A} n : keeps n (@diverge A).
Proof. intros w _. apply preserved_refl. Qed.

Lemma keeps_bind {A B} n (m : M A) (f : A → M B) :
  keeps n m → (∀ a, keeps n (f a)) → keeps n (bind m f).
Proof.
  intros Hm Hf w Hn. specialize (Hm w Hn). unfold bind.
  destruct (m w) as [[a | e |] w1]; simpl in *; try done.
  eapply preserved_trans; [done|]. apply Hf. destruct Hm as (_ & Hlen & _). lia.
Qed.

Lemma keeps_try_catch {A} n (m : M A) (h : error → M A) :
  keeps n m → (∀ e, keeps n (h e)) → keeps n (try_catch m h).
Proof.
  intros Hm Hh w Hn. specialize (Hm w Hn). unfold try_catch.
  destruct (m w) as [[a | e |] w1]; simpl in *; try done.
  eapply preserved_trans; [done|]. apply Hh. destruct Hm as (_ & Hlen & _). lia.
Qed.

Lemma keeps_bind_alloc {B} n (o : object) (f : value → M B) :
  (∀ l, (n ≤ l)%nat → keeps n (f (VObj l))) → keeps n (bind (alloc o) f).
Proof.
  intros Hf w Hn. unfold bind, alloc.
  eapply preserved_trans; [|apply Hf; [done | simpl; rewrite length_app; lia]].
  repeat split; simpl.
  - by rewrite take_app_le.
  - rewrite length_app. lia.
Qed.

Lemma keeps_alloc n (o : object) : keeps n (alloc o).
Proof.
  intros w Hn. repeat split; simpl.
  - by rewrite take_app_le.
  - rewrite length_app. lia.
Qed.

Lemma keeps_get_heap n : keeps n get_heap.
Proof. intros w _. apply preserved_refl. Qed.

Lemma keeps_emit n e : keeps n (emit e).
Proof. intros w _. by repeat split. Qed.

Lemma keeps_of_host n r : keeps n (of_host r).
Proof. destruct r; [apply keeps_ret | apply keeps_throw]. Qed.

Lemma keeps_getId n o : keeps n (getId o).
Proof. intros w _. destruct (getId_frame o w) as (i & p & ->). by repeat split. Qed.

Lemma keeps_get_prop n v k : keeps n (get_prop v k).
Proof. intros w _. apply preserved_refl. Qed.

Lemma keeps_put_prop n l k x : (n ≤ l)%nat → keeps n (put_prop (VObj l) k x).
Proof.
  intros Hl w Hn. unfold put_prop, bind, get_heap, put_heap. simpl.
  repeat split; simpl.
  - by rewrite take_alter_ge.
  - by rewrite length_alter.
Qed.

Lemma keeps_for_each {A} n (xs : list A) (body : A → M unit) :
  (∀ x, keeps n (body x)) → keeps n (for_each xs body).
Proof.
  intros Hb. induction xs as [|x xs IH]; simpl; [apply keeps_ret|].
  apply keeps_bind; [apply Hb | intros _; apply IH].
Qed.

Lemma keeps_getAssociatedApplicationName n v :
  keeps n (getAssociatedApplicationName v).
Proof.
  unfold getAssociatedApplicationName.
  apply keeps_bind; [apply keeps_get_heap|]. intros h.
  destruct (specifier_of h v) as [[l sp]|]; [|apply keeps_ret].
  apply keeps_bind; [apply keeps_emit|]. intros _.
  destruct (match_application _); apply keeps_ret.
Qed.

Lemma keeps_guessClassOfSpecifier n v : keeps n (guessClassOfSpecifier v).
Proof.
  intros w _. destruct (guessClassOfSpecifier_frame v w) as (evs & -> & _).
  by repeat split.
Qed.

Lemma keeps_constructor_name n l ctor : keeps n (constructor_name l ctor).
Proof.
  unfold constructor_name. apply keeps_bind; [apply keeps_get_heap|]. intros h.
  destruct (props_get _ _); [apply keeps_get_prop|].
  destruct ctor; [apply keeps_ret | apply keeps_get_prop].
Qed.

Lemma keeps_wrapToJson n fuel v : keeps n (wrapToJson fuel v).
Proof.
  revert n v. induction fuel as [|fuel IH]; intros n v; [apply keeps_diverge|].
  cbn [wrapToJson].
  destruct (isJsonNode _); [apply keeps_alloc|].
  apply keeps_bind; [apply keeps_get_heap|]. intros h.
  destruct (specifier_of h _) as [[l sp]|].
  { apply keeps_bind; [apply keeps_guessClassOfSpecifier|]. intros g.
    destruct g; try apply keeps_throw.
    - apply keeps_bind; [apply keeps_getId|]. intros i.
      apply keeps_bind; [apply keeps_getAssociatedApplicationName|]. intros a.
      apply keeps_alloc.
    - repeat case_match;
        (apply keeps_bind; [apply keeps_getId|]; intros i;
         apply keeps_bind; [apply keeps_getAssociatedApplicationName|]; intros a;
         apply keeps_alloc). }
  destruct (match v with VUndefined => VNull | _ => v end) as [| | | | | | |l];
    try apply keeps_throw.
  destruct (heap_kind h l).
  - apply keeps_bind; [apply keeps_constructor_name|]. intros name.
    case_decide; [|apply keeps_throw].
    apply keeps_bind_alloc. intros d Hd.
    apply keeps_bind; [|intros _; apply keeps_alloc].
    apply keeps_for_each. intros k.
    apply keeps_bind; [apply keeps_get_prop|]. intros x.
    apply keeps_bind; [apply IH|]. intros y. by apply keeps_put_prop.
  - apply keeps_bind_alloc. intros d Hd.
    apply keeps_bind; [|intros _; apply keeps_alloc].
    apply keeps_for_each. intros k.
    apply keeps_bind; [apply keeps_get_prop|]. intros x.
    apply keeps_bind; [apply IH|]. intros y. by apply keeps_put_prop.
  - apply keeps_alloc.
  - apply keeps_bind; [apply keeps_getId|]. intros i. apply keeps_alloc.
  - apply keeps_bind; [apply keeps_getId|]. intros i. apply keeps_alloc.
Qed.

Lemma wrapToJson_extends fuel v w :
  w_heap w `prefix_of` w_heap (wrapToJson fuel v w).2 ∧
  w_console (wrapToJson fuel v w).2 = w_console w.
Proof.
  destruct (keeps_wrapToJson (length (w_heap w)) fuel v w) as (Ht & Hl & Hc); [done|].
  split; [|done]. rewrite firstn_all in Ht. rewrite <- Ht. apply prefix_take.
Qed.


(** ** Decoding touches only the store *)

Lemma with_heap_same w : with_heap (w_heap w) w = w.
Proof. by destruct w. Qed.

Lemma heap_only_ret {A} (a : A) : heap_only (ret a).
Proof. intros w. exists (w_heap w). by rewrite with_heap_same. Qed.

Lemma heap_only_throw {A} e : heap_only (@throw A e).
Proof. intros w. exists (w_heap w). by rewrite with_heap_same. Qed.

Lemma heap_only_diverge {A} : heap_only (@diverge A).
Proof. intros w. exists (w_heap w). by rewrite with_heap_same. Qed.

Lemma heap_only_bind {A B} (m : M A) (f : A → M B) :
  heap_only m → (∀ a, heap_only (f a)) → heap_only (bind m f).
Proof.
  intros Hm Hf w. destruct (Hm w) as [h Hh]. unfold bind.
  destruct (m w) as [[a | e |] w1]; simpl in *; subst w1; [|by exists h..].
  destruct (Hf a (with_heap h w)) as [h' ->]. by exists h'.
Qed.

Lemma heap_only_get_heap : heap_only get_heap.
Proof. intros w. exists (w_heap w). by rewrite with_heap_same. Qed.

Lemma heap_only_alloc o : heap_only (alloc o).
Proof. intros w. by eexists. Qed.

(** Reading a property changes nothing, and fails only on [undefined] and
    [null]. *)
Lemma get_prop_world v k w : (get_prop v k w).2 = w.
Proof. reflexivity. Qed.

Lemma get_prop_defined v k w :
  v ≠ VUndefined → v ≠ VNull → ∃ x, get_prop v k w = (Ok x, w).
Proof.
  intros Hu Hn. unfold get_prop, read_prop.
  destruct v; try done; repeat case_match; by eexists.
Qed.

Lemma get_prop_nullish v k w :
  v = VUndefined ∨ v = VNull → ∃ e, get_prop v k w = (Throw e, w).
Proof. intros [-> | ->]; by eexists. Qed.

Lemma heap_only_get_prop v k : heap_only (get_prop v k).
Proof.
  intros w. exists (w_heap w). by rewrite get_prop_world, with_heap_same.
Qed.

Lemma heap_only_put_prop v k x : heap_only (put_prop v k x).
Proof.
  destruct v; try apply heap_only_throw.
  intros w. by eexists.
Qed.

Lemma heap_only_for_each {A} (xs : list A) (body : A → M unit) :
  (∀ x, heap_only (body x)) → heap_only (for_each xs body).
Proof.
  intros Hb. induction xs as [|x xs IH]; simpl; [apply heap_only_ret|].
  apply heap_only_bind; [apply Hb | intros _; apply IH].
Qed.

Section DecodeFacts.
Variable host_ToNumber : heap → value → number.

Lemma heap_only_ToNumber v : heap_only (ToNumber host_ToNumber v).
Proof.
  destruct v; try apply heap_only_ret; try apply heap_only_throw.
  all: apply heap_only_bind; [apply heap_only_get_heap | intros h; apply heap_only_ret].
Qed.

(** The handler of the reference branch is dead code: once [obj.type]
    could be read, [obj.objId] can be read too, and [getObject] does
    not throw. *)
Lemma reference_branch obj w (h : error → M value) :
  obj ≠ VUndefined → obj ≠ VNull →
  ∃ id, get_prop obj (Name "objId") w = (Ok id, w) ∧
        try_catch (let* objId := get_prop obj (Name "objId") in getObject objId) h w
        = (Ok (idObjectMap_get id (w_pool w)), w).
Proof.
  intros Hu Hn. destruct (get_prop_defined obj (Name "objId") w Hu Hn) as [id Hid].
  exists id. split; [done|]. apply try_catch_ok.
  rewrite (bind_ok _ _ _ _ _ Hid). apply getObject_eq.
Qed.

Lemma heap_only_unwrapFromJson fuel obj :
  heap_only (unwrapFromJson host_ToNumber fuel obj).
Proof.
  revert obj. induction fuel as [|fuel IH]; intros obj; [apply heap_only_diverge|].
  cbn [unwrapFromJson].
  destruct (decide (obj = VUndefined ∨ obj = VNull)) as [Hnull | Hdef].
  { intros w. destruct (get_prop_nullish obj (Name "type") w Hnull) as [e He].
    rewrite (bind_throw _ _ _ _ _ He). exists (w_heap w). by rewrite with_heap_same. }
  apply heap_only_bind; [apply heap_only_get_prop|]. intros type.
  repeat case_decide.
  - apply heap_only_get_prop.
  - apply heap_only_bind; [apply heap_only_get_prop|]. intros d.
    apply heap_only_bind; [apply heap_only_ToNumber|]. intros x.
    apply heap_only_alloc.
  - apply heap_only_bind; [apply heap_only_get_prop|]. intros data.
    apply heap_only_bind; [apply heap_only_get_heap|]. intros h.
    apply heap_only_bind; [|intros _; apply heap_only_get_prop].
    apply heap_only_for_each. intros k.
    apply heap_only_bind; [apply heap_only_get_prop|]. intros target.
    apply heap_only_bind; [apply heap_only_get_prop|]. intros source.
    apply heap_only_bind; [apply heap_only_get_prop|]. intros x.
    apply heap_only_bind; [apply IH|]. intros y. apply heap_only_put_prop.
  - intros w.
    destruct (reference_branch obj w
                (λ error, let* objId := get_prop obj (Name "objId") in
                          console_log (LogUnwrapObject objId) >> ret VUndefined))
      as (id & _ & ->); [by intros ->; apply Hdef; left | by intros ->; apply Hdef; right |].
    exists (w_heap w). by rewrite with_heap_same.
  - apply heap_only_ret.
Qed.

Lemma bind_inv_ok {A B} (m : M A) (f : A → M B) (b : B) (w w' : world) :
  bind m f w = (Ok b, w') → ∃ a w1, m w = (Ok a, w1) ∧ f a w1 = (Ok b, w').
Proof.
  unfold bind. destruct (m w) as [[a | e |] w1]; [|done..].
  intros H. by exists a, w1.
Qed.

(** An array or dict node decodes to its own [data] container. *)
Lemma unwrapFromJson_alias fuel obj ty r w w' :
  get_prop obj (Name "type") w = (Ok ty, w) →
  ty = VStr "array" ∨ ty = VStr "dict" →
  unwrapFromJson host_ToNumber fuel obj w = (Ok r, w') →
  get_prop obj (Name "data") w' = (Ok r, w').
Proof.
  intros Hty Har. destruct fuel as [|fuel]; [done|].
  cbn [unwrapFromJson]. rewrite (bind_ok _ _ _ _ _ Hty).
  rewrite decide_False by (intros ->; by destruct Har).
  rewrite decide_False by (intros ->; by destruct Har).
  rewrite decide_True by done.
  intros (data & w1 & _ & H)%bind_inv_ok.
  apply bind_inv_ok in H as (h & w2 & _ & H).
  apply bind_inv_ok in H as (u & w3 & _ & H).
  pose proof (get_prop_world obj (Name "data") w3) as Hw.
  rewrite H in Hw. simpl in Hw. by subst w3.
Qed.
End DecodeFacts.


(** ** Decoding depends on the store and the pool only *)

Lemma same_input_refl w : same_input w w.
Proof. by split. Qed.

Lemma input_determined_ret {A} (a : A) : input_determined (ret a).
Proof. by intros w1 w2 H. Qed.

Lemma input_determined_throw {A} e : input_determined (@throw A e).
Proof. by intros w1 w2 H. Qed.

Lemma input_determined_diverge {A} : input_determined (@diverge A).
Proof. by intros w1 w2 H. Qed.

Lemma input_determined_bind {A B} (m : M A) (f : A → M B) :
  input_determined m → (∀ a, input_determined (f a)) → input_determined (bind m f).
Proof.
  intros Hm Hf w1 w2 H. destruct (Hm w1 w2 H) as [Hr Hw]. unfold bind.
  destruct (m w1) as [r1 w1'], (m w2) as [r2 w2']. simpl in *. subst r2.
  destruct r1 as [a | e |]; [by apply Hf | done..].
Qed.

Lemma input_determined_try_catch {A} (m : M A) (h : error → M A) :
  input_determined m → (∀ e, input_determined (h e)) →
  input_determined (try_catch m h).
Proof.
  intros Hm Hh w1 w2 H. destruct (Hm w1 w2 H) as [Hr Hw]. unfold try_catch.
  destruct (m w1) as [r1 w1'], (m w2) as [r2 w2']. simpl in *. subst r2.
  destruct r1 as [a | e |]; [done | by apply Hh | done].
Qed.

Lemma input_determined_get_heap : input_determined get_heap.
Proof. intros w1 w2 [Hh Hp]. simpl. by rewrite Hh. Qed.

Lemma input_determined_get_pool : input_determined get_pool.
Proof. intros w1 w2 [Hh Hp]. simpl. by rewrite Hp. Qed.

Lemma input_determined_console_log e : input_determined (console_log e).
Proof. by intros w1 w2 [Hh Hp]. Qed.

Lemma input_determined_alloc o : input_determined (alloc o).
Proof. intros w1 w2 [Hh Hp]. unfold alloc, same_input. simpl. by rewrite Hh. Qed.

Lemma input_determined_get_prop v k : input_determined (get_prop v k).
Proof. intros w1 w2 [Hh Hp]. unfold get_prop. simpl. by rewrite Hh. Qed.

Lemma input_determined_put_prop v k x : input_determined (put_prop v k x).
Proof.
  destruct v; try apply input_determined_throw.
  intros w1 w2 [Hh Hp]. unfold put_prop, bind, get_heap, put_heap, same_input.
  simpl. by rewrite Hh.
Qed.

Lemma input_determined_for_each {A} (xs : list A) (body : A → M unit) :
  (∀ x, input_determined (body x)) → input_determined (for_each xs body).
Proof.
  intros Hb. induction xs as [|x xs IH]; simpl; [apply input_determined_ret|].
  apply input_determined_bind; [apply Hb | intros _; apply IH].
Qed.

Lemma input_determined_getObject id : input_determined (getObject id).
Proof.
  unfold getObject. apply input_determined_try_catch.
  - apply input_determined_bind; [apply input_determined_get_pool|].
    intros p. apply input_determined_ret.
  - intros e. apply input_determined_bind; [apply input_determined_console_log|].
    intros _. apply input_determined_ret.
Qed.

Lemma input_determined_unwrapFromJson tn fuel obj :
  input_determined (unwrapFromJson tn fuel obj).
Proof.
  revert obj. induction fuel as [|fuel IH]; intros obj;
    [apply input_determined_diverge|].
  cbn [unwrapFromJson].
  apply input_determined_bind; [apply input_determined_get_prop|]. intros type.
  repeat case_decide.
  - apply input_determined_get_prop.
  - apply input_determined_bind; [apply input_determined_get_prop|]. intros d.
    apply input_determined_bind; [|intros x; apply input_determined_alloc].
    destruct d; try apply input_determined_ret; try apply input_determined_throw.
    all: apply input_determined_bind; [apply input_determined_get_heap|];
      intros h; apply input_determined_ret.
  - apply input_determined_bind; [apply input_determined_get_prop|]. intros data.
    apply input_determined_bind; [apply input_determined_get_heap|]. intros h.
    apply input_determined_bind; [|intros _; apply input_determined_get_prop].
    apply input_determined_for_each. intros k.
    apply input_determined_bind; [apply input_determined_get_prop|]. intros target.
    apply input_determined_bind; [apply input_determined_get_prop|]. intros source.
    apply input_determined_bind; [apply input_determined_get_prop|]. intros x.
    apply input_determined_bind; [apply IH|]. intros y.
    apply input_determined_put_prop.
  - apply input_determined_try_catch.
    + apply input_determined_bind; [apply input_determined_get_prop|].
      intros id. apply input_determined_getObject.
    + intros e. apply input_determined_bind; [apply input_determined_get_prop|].
      intros id. apply input_determined_bind; [apply input_determined_console_log|].
      intros _. apply input_determined_ret.
  - apply input_determined_ret.
Qed.


(** ** Decoding a flat container in place *)

Lemma props_get_existing k v pre suf :
  props_ordered (pre ++ (k, v) :: suf) →
  props_get k (pre ++ (k, v) :: suf) = Some v.
Proof.
  unfold props_ordered. induction pre as [|[k' v'] pre IH]; simpl; intros Hs.
  - by rewrite decide_True.
  - apply StronglySorted_inv in Hs as [Hs Hall].
    rewrite decide_False; [by apply IH|].
    intros <-. rewrite fmap_app, Forall_app in Hall. destruct Hall as [_ Hall].
    apply Forall_cons in Hall as [Hk _]. destruct k; simpl in Hk; [lia | done].
Qed.

Lemma props_set_existing k v old pre suf :
  props_ordered (pre ++ (k, old) :: suf) →
  props_set k v (pre ++ (k, old) :: suf) = pre ++ (k, v) :: suf.
Proof.
  unfold props_ordered. induction pre as [|[k' v'] pre IH]; simpl; intros Hs.
  - by rewrite decide_True.
  - apply StronglySorted_inv in Hs as [Hs Hall].
    rewrite fmap_app, Forall_app in Hall. destruct Hall as [_ Hall].
    apply Forall_cons in Hall as [Hk _]. simpl in Hk.
    rewrite decide_False by (intros <-; destruct k; simpl in Hk; [lia | done]).
    destruct k as [i|a], k' as [j|b]; simpl in Hk; try done.
    + destruct (N.ltb_spec i j); [lia|]. by rewrite IH.
    + by rewrite IH.
    + by rewrite IH.
Qed.

Lemma read_prop_ext h h' c k :
  h' !! c = h !! c → read_prop h' (VObj c) k = read_prop h (VObj c) k.
Proof. intros H. unfold read_prop, heap_kind, heap_props. by rewrite H. Qed.

Lemma read_prop_obj_ok h c k : ∃ x, read_prop h (VObj c) k = Ok x.
Proof. unfold read_prop. repeat case_match; by eexists. Qed.

Lemma read_prop_own h c o k :
  h !! c = Some o → own_keys (o_kind o) (o_props o).*1 →
  k ∈ (o_props o).*1 →
  read_prop h (VObj c) k = Ok (default VUndefined (props_get k (o_props o))).
Proof.
  intros Hc Hown Hk. unfold read_prop, heap_kind, heap_props. rewrite Hc.
  destruct (o_kind o); simpl in Hown; try done.
  - rewrite decide_False; [done | by intros ->].
  - rewrite decide_False; [done | by intros ->].
Qed.

Lemma alter_insert_same {A} (f : A → A) (h : list A) (d : nat) (o : A) :
  (d < length h)%nat → alter f d (<[d := o]> h) = <[d := f o]> h.
Proof.
  intros Hd. apply list_eq. intros i. destruct (decide (i = d)) as [-> | Hne].
  - rewrite list_lookup_alter_eq, !list_lookup_insert_eq by done. done.
  - rewrite list_lookup_alter_ne, !list_lookup_insert_ne by done. done.
Qed.

Lemma own_keys_kind_set k kd ks : own_keys kd ks → own_keys (kind_set k kd) ks.
Proof. destruct kd, k; done. Qed.

Section InPlace.
Variable tn : heap → value → number.
Variables (w : world) (l d : loc) (fuel : nat).
Hypothesis Hld : l ≠ d.
Hypothesis Hd : (d < length (w_heap w))%nat.
Hypothesis Hdata : read_prop (w_heap w) (VObj l) (Name "data") = Ok (VObj d).

(** The body of the loop of [unwrapFromJson] on the node [l]. *)
Let body (k : pkey) : M unit :=
let* target := get_prop (VObj l) (Name "data") in
let* source := get_prop (VObj l) (Name "data") in
let* x := get_prop source k in
let* y := unwrapFromJson tn (S fuel) x in
put_prop target k y.

Lemma flat_loop (todo : list (pkey * value)) :
∀ (done : list (pkey * value)) (oi : object),
  o_props oi = done ++ todo →
  props_ordered (done ++ todo) →
  own_keys (o_kind oi) (done ++ todo).*1 →
  Forall (plain_child (w_heap w) d) todo →
  ∃ oi',
    for_each todo.*1 body (with_heap (<[d := oi]> (w_heap w)) w)
    = (Ok tt, with_heap (<[d := oi']> (w_heap w)) w) ∧
    o_props oi' = done ++ (decoded_child (w_heap w) <$> todo).
Proof.
induction todo as [|[k v] todo IH]; intros done oi Hps Hord Hown Hch.
{ exists oi. split; [done|]. simpl. by rewrite Hps. }
apply Forall_cons in Hch as [(c & Hv & Hcd & Hplain) Hch]. simpl in Hv. subst v.
set (hi := <[d := oi]> (w_heap w)).
assert (Hl : read_prop hi (VObj l) (Name "data") = Ok (VObj d)).
{ rewrite <- Hdata. apply read_prop_ext. by apply list_lookup_insert_ne. }
assert (Hc : ∀ k', read_prop hi (VObj c) k' = read_prop (w_heap w) (VObj c) k').
{ intros k'. apply read_prop_ext. by apply list_lookup_insert_ne. }
assert (Hx : read_prop hi (VObj d) k = Ok (VObj c)).
{ rewrite (read_prop_own hi d oi).
  - by rewrite Hps, props_get_existing.
  - by apply list_lookup_insert_eq.
  - by rewrite Hps.
  - rewrite Hps, fmap_app. apply elem_of_app. right. left. }
destruct (read_prop_obj_ok (w_heap w) c (Name "data")) as [y Hy].
assert (Hy' : unwrapFromJson tn (S fuel) (VObj c) (with_heap hi w)
              = (Ok y, with_heap hi w)).
{ cbn [unwrapFromJson]. unfold bind at 1, get_prop. simpl w_heap.
  rewrite Hc, Hplain. rewrite decide_True by done. by rewrite Hc, Hy. }
destruct (IH (done ++ [(k, y)]) (object_set k y oi)) as (oi' & Hloop & Hprops).
- unfold object_set. simpl. rewrite Hps, props_set_existing by done.
  by rewrite <- app_assoc.
- unfold props_ordered in *. rewrite <- app_assoc. simpl.
  by rewrite !fmap_app in *.
- unfold object_set. simpl. apply own_keys_kind_set.
  rewrite <- app_assoc. simpl. by rewrite !fmap_app in *.
- done.
- exists oi'. split.
  + simpl for_each. unfold body at 1.
    unfold bind at 1. unfold bind at 1. unfold get_prop at 1. simpl w_heap.
    fold hi. rewrite Hl. unfold bind at 1. unfold get_prop at 1. simpl w_heap.
    fold hi. rewrite Hl. unfold bind at 1. unfold get_prop at 1. simpl w_heap.
    fold hi. rewrite Hx. unfold bind at 1. rewrite Hy'.
    unfold put_prop, bind at 1, get_heap, put_heap. simpl.
    unfold hi. rewrite alter_insert_same by done. apply Hloop.
  + rewrite Hprops, <- app_assoc, fmap_cons.
    change (decoded_child (w_heap w) (k, VObj c))
      with (k, match read_prop (w_heap w) (VObj c) (Name "data") with
               | Ok x => x
               | _ => VUndefined
               end).
    by rewrite Hy.
Qed.
End InPlace.

(** A container whose entries are plain nodes is decoded in place: the
    call returns the container itself, every entry of which has been
    replaced by the [data] of the node it held; no other object changes. *)
Lemma unwrapFromJson_flat_in_place tn fuel w l d ty o :
  l ≠ d →
  read_prop (w_heap w) (VObj l) (Name "type") = Ok ty →
  ty = VStr "array" ∨ ty = VStr "dict" →
  read_prop (w_heap w) (VObj l) (Name "data") = Ok (VObj d) →
  w_heap w !! d = Some o →
  props_ordered (o_props o) →
  own_keys (o_kind o) (o_props o).*1 →
  Forall (plain_child (w_heap w) d) (o_props o) →
  ∃ o',
    unwrapFromJson tn (S (S fuel)) (VObj l) w
    = (Ok (VObj d), with_heap (<[d := o']> (w_heap w)) w) ∧
    o_props o' = decoded_child (w_heap w) <$> o_props o.
Proof.
  intros Hld Hty Har Hdata Ho Hord Hown Hch.
  assert (Hd : (d < length (w_heap w))%nat) by by eapply lookup_lt_Some.
  destruct (flat_loop tn w l d fuel Hld Hd Hdata (o_props o) [] o)
    as (o' & Hloop & Hprops); [done..|].
  rewrite list_insert_id in Hloop by done. rewrite with_heap_same in Hloop.
  exists o'. split; [|done].
  cbn [unwrapFromJson]. unfold bind at 1, get_prop at 1. rewrite Hty.
  rewrite !decide_False by (intros ->; by destruct Har).
  rewrite decide_True by done.
  unfold bind at 1, get_prop at 1. rewrite Hdata.
  unfold bind at 1, get_heap. unfold for_in_keys, heap_props. rewrite Ho.
  erewrite (bind_ok _ _ tt); [|exact Hloop].
  unfold get_prop. simpl w_heap. f_equal.
  rewrite <- Hdata. apply read_prop_ext. by apply list_lookup_insert_ne.
Qed.

Lemma unwrapFromJson_flat_in_place_example :
  let w1 := (JSON_parse (JsonText (array_doc [plain_doc (JNum (num_of_Z 42));
                                             plain_doc (JStr "x")]))
               empty_world).2 in
  ∃ o',
    unwrapFromJson sample_ToNumber 2 (VObj 3%nat) w1
    = (Ok (VObj 2%nat), with_heap (<[2%nat := o']> (w_heap w1)) w1) ∧
    o_props o' = [(Idx 0, VNum (num_of_Z 42)); (Idx 1, VStr "x")].
Proof.
  intros w1.
  destruct (unwrapFromJson_flat_in_place sample_ToNumber 0 w1 3%nat 2%nat
              (VStr "array") (array_object [VObj 0%nat; VObj 1%nat]))
    as (o' & H1 & H2); try reflexivity; try done.
  - by left.
  - repeat constructor; simpl; lia.
  - simpl. intros H. repeat (apply elem_of_cons in H as [H | H]; [discriminate H|]).
    by apply elem_of_nil in H.
  - repeat constructor; eexists; (split; [reflexivity|]); split; done.
  - exists o'. split; [exact H1 | exact H2].
Qed.


(* ===================================================================== *)
(** * The decoder and the wrapper *)
(* ===================================================================== *)

(** The decoding phase of the wrapper: parse, then decode, keeping the
    parsed value when decoding throws. *)
Lemma wrapper_after_decode tn iso fuel func strParams w params w1 :
  (let* p := JSON_parse strParams in
   try_catch (unwrapFromJson tn fuel p)
             (λ error, console_log (LogUnwrapParams error) >> ret p)) w
  = (Ok params, w1) →
  strIOFuncWrapper tn iso fuel func strParams w
  = (let* result := func params in
     let* result :=
       try_catch (wrapToJson fuel result)
                 (λ error, console_log (LogWrapResult error) >> ret result) in
     JSON_stringify iso fuel result) w1.
Proof.
  intros (p & w0 & Hp & Hd)%bind_inv_ok.
  unfold strIOFuncWrapper.
  rewrite (bind_ok _ _ _ _ _ Hp). by rewrite (bind_ok _ _ _ _ _ Hd).
Qed.

Lemma get_prop_cases v k w :
  (∃ x, get_prop v k w = (Ok x, w)) ∨ (∃ e, get_prop v k w = (Throw e, w)).
Proof.
  destruct (decide (v = VUndefined ∨ v = VNull)) as [Hn | Hd].
  - right. by apply get_prop_nullish.
  - left. apply get_prop_defined; intros ->; apply Hd; [by left | by right].
Qed.

Lemma constructor_name_cases l ctor w :
  (∃ x, constructor_name l ctor w = (Ok x, w)) ∨
  (∃ e, constructor_name l ctor w = (Throw e, w)).
Proof.
  unfold constructor_name, bind, get_heap.
  destruct (props_get _ _) as [c|]; [apply get_prop_cases|].
  destruct ctor; [left; by eexists | apply get_prop_cases].
Qed.

Lemma wrapToJson_unclassifiable fuel v w :
  unclassifiable w v →
  ∃ e, wrapToJson (S fuel) v w = (Throw e, w).
Proof.
  intros [-> | [[z ->] | (l & ctor & -> & Hk & Hc)]]; [by eexists.. |].
  cbn [wrapToJson isJsonNode]. unfold bind at 1, get_heap.
  unfold specifier_of. rewrite Hk.
  destruct (constructor_name_cases l ctor w) as [[x Hx] | [e He]].
  - rewrite (bind_ok _ _ _ _ _ Hx). rewrite Hx in Hc. simpl in Hc.
    rewrite decide_False by congruence. by eexists.
  - rewrite (bind_throw _ _ _ _ _ He). by eexists.
Qed.

(* --------------------------------------------------------------------- *)
(** ** C2: stale handles *)
(* --------------------------------------------------------------------- *)

(** C2, counterexample: on the empty pool, the reference node with id 7
    decodes to the ordinary value [undefined], nothing is thrown and
    nothing is logged, and the bridge function [echo] answers the stale
    reference exactly as it answers a plain [null]. *)
Lemma C2_stale_handle_reads_as_null :
  _idObjectMap (w_pool empty_world) !! 7 = None ∧
  ((let* p := JSON_parse (JsonText (reference_doc 7)) in
    unwrapFromJson sample_ToNumber 1 p) empty_world).1 = Ok VUndefined ∧
  (echo sample_ToNumber sample_toISOString 2 (JsonText (reference_doc 7)) empty_world).1
  = Ok (Some (plain_doc JNull)) ∧
  (echo sample_ToNumber sample_toISOString 2 (JsonText (plain_doc JNull)) empty_world).1
  = Ok (Some (plain_doc JNull)) ∧
  w_console (echo sample_ToNumber sample_toISOString 2
               (JsonText (reference_doc 7)) empty_world).2 = [].
Proof. repeat split; vm_compute; reflexivity. Qed.

(** C2, as amended: for an id the pool does not hold, [getObject] returns
    [undefined], and decoding a reference node that carries this id
    returns [undefined] too, without throwing, logging or changing
    anything. *)
Theorem C2_stale_handle_decodes_to_undefined
    (tn : heap → value → number) (fuel : nat) (w : world) (obj id : value) :
  get_prop obj (Name "type") w = (Ok (VStr "reference"), w) →
  get_prop obj (Name "objId") w = (Ok id, w) →
  (∀ k, id_key id = Some k → _idObjectMap (w_pool w) !! k = None) →
  getObject id w = (Ok VUndefined, w) ∧
  unwrapFromJson tn (S fuel) obj w = (Ok VUndefined, w).
Proof.
  intros Hty Hid Hstale.
  assert (Hget : getObject id w = (Ok VUndefined, w)).
  { rewrite getObject_eq. by rewrite idObjectMap_get_None. }
  split; [done|].
  cbn [unwrapFromJson]. rewrite (bind_ok _ _ _ _ _ Hty).
  rewrite !decide_False by (try intros [?|?]; discriminate).
  rewrite decide_True by done.
  apply try_catch_ok. by rewrite (bind_ok _ _ _ _ _ Hid).
Qed.

Lemma C2_stale_handle_decodes_to_undefined_witness :
  let w := with_heap [literal [("type", VStr "reference");
                               ("objId", VNum (num_of_Z 7))]] empty_world in
  getObject (VNum (num_of_Z 7)) w = (Ok VUndefined, w) ∧
  unwrapFromJson sample_ToNumber 1 (VObj 0%nat) w = (Ok VUndefined, w).
Proof.
  intros w.
  apply (C2_stale_handle_decodes_to_undefined sample_ToNumber 0 w (VObj 0%nat)
           (VNum (num_of_Z 7))).
  - reflexivity.
  - reflexivity.
  - intros k Hk. vm_compute in Hk. injection Hk as <-. reflexivity.
Defined.

(* --------------------------------------------------------------------- *)
(** ** C3: a failing operation *)
(* --------------------------------------------------------------------- *)

(** C3, counterexample: the bridge function [releaseObjectWithId], called
    with the request [{type: plain, data: null}], destructures [null];
    the TypeError leaves the wrapped function as it is, and nothing is
    logged. *)
Lemma C3_host_failure_escapes_the_wrapper :
  (_releaseObjectWithId VNull empty_world).1
  = Throw (TypeError "undefined or null is not an object") ∧
  (bridge_releaseObjectWithId sample_ToNumber sample_toISOString 2
     (JsonText (plain_doc JNull)) empty_world).1
  = Throw (TypeError "undefined or null is not an object") ∧
  w_console (bridge_releaseObjectWithId sample_ToNumber sample_toISOString 2
               (JsonText (plain_doc JNull)) empty_world).2 = [].
Proof. repeat split; vm_compute; reflexivity. Qed.

(** C3, as amended: when the inner operation throws, the wrapped function
    throws the same exception, in the state the operation left: the call
    of the operation is not guarded. *)
Theorem C3_host_failure_propagates
    (tn : heap → value → number) (iso : Z → string) (fuel : nat)
    (func : value → M value) (strParams : wire)
    (w w1 w2 : world) (params : value) (e : error) :
  (let* p := JSON_parse strParams in
   try_catch (unwrapFromJson tn fuel p)
             (λ error, console_log (LogUnwrapParams error) >> ret p)) w
  = (Ok params, w1) →
  func params w1 = (Throw e, w2) →
  strIOFuncWrapper tn iso fuel func strParams w = (Throw e, w2).
Proof.
  intros Hd Hf. rewrite (wrapper_after_decode _ _ _ _ _ _ _ _ Hd).
  by rewrite (bind_throw _ _ _ _ _ Hf).
Qed.

Lemma C3_host_failure_propagates_witness :
  ∃ w2,
    strIOFuncWrapper sample_ToNumber sample_toISOString 2 _releaseObjectWithId
      (JsonText (plain_doc JNull)) empty_world
    = (Throw (TypeError "undefined or null is not an object"), w2).
Proof.
  eexists.
  eapply (C3_host_failure_propagates sample_ToNumber sample_toISOString 2
            _releaseObjectWithId (JsonText (plain_doc JNull)) empty_world _ _ VNull);
    reflexivity.
Defined.

(** The wrapper of the first script does not guard the call either. *)
Lemma jsonIOWrapper_propagates iso fuel func text w param w1 e w2 :
  JSON_parse text w = (Ok param, w1) →
  func param w1 = (Throw e, w2) →
  jsonIOWrapper iso fuel func text w = (Throw e, w2).
Proof.
  intros Hp Hf. unfold jsonIOWrapper.
  rewrite (bind_ok _ _ _ _ _ Hp). by rewrite (bind_throw _ _ _ _ _ Hf).
Qed.

(* --------------------------------------------------------------------- *)
(** ** C10: a failing decode *)
(* --------------------------------------------------------------------- *)

(** C10: when decoding the parsed parameters throws, the wrapped function
    logs the error and goes on: it calls the operation with the parsed
    value itself, in the state the failed decode left, and then encodes
    and serializes what the operation returns. *)
Theorem C10_decode_failure_still_calls_the_operation
    (tn : heap → value → number) (iso : Z → string) (fuel : nat)
    (func : value → M value) (strParams : wire)
    (w w0 w1 : world) (p : value) (e : error) :
  JSON_parse strParams w = (Ok p, w0) →
  unwrapFromJson tn fuel p w0 = (Throw e, w1) →
  strIOFuncWrapper tn iso fuel func strParams w
  = (let* result := func p in
     let* result :=
       try_catch (wrapToJson fuel result)
                 (λ error, console_log (LogWrapResult error) >> ret result) in
     JSON_stringify iso fuel result)
      (with_console (w_console w1 ++ [LogUnwrapParams e]) w1).
Proof.
  intros Hp Hd. apply wrapper_after_decode.
  rewrite (bind_ok _ _ _ _ _ Hp).
  by rewrite (try_catch_throw _ _ _ _ _ Hd).
Qed.

Lemma C10_decode_failure_still_calls_the_operation_witness :
  strIOFuncWrapper sample_ToNumber sample_toISOString 1 returns_five
    (JsonText JNull) empty_world
  = (let* result := returns_five VNull in
     let* result :=
       try_catch (wrapToJson 1 result)
                 (λ error, console_log (LogWrapResult error) >> ret result) in
     JSON_stringify sample_toISOString 1 result)
      (with_console
         (w_console empty_world
          ++ [LogUnwrapParams (TypeError "undefined or null is not an object")])
         empty_world).
Proof.
  apply (C10_decode_failure_still_calls_the_operation
           sample_ToNumber sample_toISOString 1 returns_five (JsonText JNull)
           empty_world empty_world empty_world VNull
           (TypeError "undefined or null is not an object"));
    reflexivity.
Defined.

(* --------------------------------------------------------------------- *)
(** ** C7: values that cannot be classified *)
(* --------------------------------------------------------------------- *)

(** C7, counterexample: an operation returns an instance of a class
    [Point] with fields [type = "plain"] and [data = 5].  [wrapToJson]
    rejects it, the wrapper logs the error and answers with the raw object
    serialized: the very response it gives for the number 5. *)
Lemma C7_failed_encode_answers_like_a_success :
  (∃ e w, (let* r := returns_point VNull in wrapToJson 2 r) empty_world = (Throw e, w)) ∧
  (strIOFuncWrapper sample_ToNumber sample_toISOString 2 returns_point
     (JsonText (plain_doc JNull)) empty_world).1
  = Ok (Some (plain_doc (JNum (num_of_Z 5)))) ∧
  (strIOFuncWrapper sample_ToNumber sample_toISOString 2 returns_five
     (JsonText (plain_doc JNull)) empty_world).1
  = Ok (Some (plain_doc (JNum (num_of_Z 5)))).
Proof.
  split; [eexists _, _; vm_compute; reflexivity|].
  split; vm_compute; reflexivity.
Qed.

(** C7, as amended: on a value no branch accepts, [wrapToJson] throws and
    returns no node; the wrapped function catches this error, logs it, and
    answers with the serialization of the raw, unencoded result. *)
Theorem C7_classification_failure_is_logged_and_bypassed
    (tn : heap → value → number) (iso : Z → string) (fuel : nat)
    (func : value → M value) (strParams : wire)
    (w w1 w2 : world) (params result : value) :
  (let* p := JSON_parse strParams in
   try_catch (unwrapFromJson tn (S fuel) p)
             (λ error, console_log (LogUnwrapParams error) >> ret p)) w
  = (Ok params, w1) →
  func params w1 = (Ok result, w2) →
  unclassifiable w2 result →
  ∃ e,
    wrapToJson (S fuel) result w2 = (Throw e, w2) ∧
    strIOFuncWrapper tn iso (S fuel) func strParams w
    = JSON_stringify iso (S fuel) result
        (with_console (w_console w2 ++ [LogWrapResult e]) w2).
Proof.
  intros Hd Hf Hu.
  destruct (wrapToJson_unclassifiable fuel result w2 Hu) as [e He].
  exists e. split; [done|].
  rewrite (wrapper_after_decode _ _ _ _ _ _ _ _ Hd).
  rewrite (bind_ok _ _ _ _ _ Hf).
  by rewrite (bind_ok _ _ result _
                (with_console (w_console w2 ++ [LogWrapResult e]) w2)
                (try_catch_throw _ _ _ _ _ He)).
Qed.

Lemma C7_classification_failure_is_logged_and_bypassed_witness :
  ∃ e,
    wrapToJson 2 (VObj 1%nat) (returns_point VNull
       (JSON_parse (JsonText (plain_doc JNull)) empty_world).2).2
    = (Throw e, (returns_point VNull
         (JSON_parse (JsonText (plain_doc JNull)) empty_world).2).2) ∧
    strIOFuncWrapper sample_ToNumber sample_toISOString 2 returns_point
      (JsonText (plain_doc JNull)) empty_world
    = JSON_stringify sample_toISOString 2 (VObj 1%nat)
        (with_console
           (w_console (returns_point VNull
              (JSON_parse (JsonText (plain_doc JNull)) empty_world).2).2
            ++ [LogWrapResult e])
           (returns_point VNull
              (JSON_parse (JsonText (plain_doc JNull)) empty_world).2).2).
Proof.
  apply (C7_classification_failure_is_logged_and_bypassed
           sample_ToNumber sample_toISOString 1 returns_point
           (JsonText (plain_doc JNull)) empty_world
           (JSON_parse (JsonText (plain_doc JNull)) empty_world).2
           (returns_point VNull (JSON_parse (JsonText (plain_doc JNull)) empty_world).2).2
           VNull (VObj 1%nat)).
  - reflexivity.
  - reflexivity.
  - right. right. exists 1%nat, (Some "Point"%string).
    split; [reflexivity|]. split; [reflexivity|]. vm_compute. discriminate.
Defined.


(* --------------------------------------------------------------------- *)
(** ** C8: what encoding and decoding change *)
(* --------------------------------------------------------------------- *)

(** C8, counterexample: decoding the parsed request
    [{type: array, data: [{type: plain, data: 42}]}] writes into the
    parsed tree.  Before the call the array at address 1 holds the child
    node; after it the same array holds the number 42, and the call
    returns that very array. *)
Lemma C8_decode_overwrites_its_input :
  let w1 := (JSON_parse (JsonText (array_doc [plain_doc (JNum (num_of_Z 42))]))
               empty_world).2 in
  let w2 := (unwrapFromJson sample_ToNumber 2 (VObj 2%nat) w1).2 in
  (JSON_parse (JsonText (array_doc [plain_doc (JNum (num_of_Z 42))])) empty_world).1
  = Ok (VObj 2%nat) ∧
  heap_props (w_heap w1) 2%nat = [(Name "type", VStr "array"); (Name "data", VObj 1%nat)] ∧
  heap_props (w_heap w1) 1%nat = [(Idx 0, VObj 0%nat)] ∧
  (unwrapFromJson sample_ToNumber 2 (VObj 2%nat) w1).1 = Ok (VObj 1%nat) ∧
  heap_props (w_heap w2) 1%nat = [(Idx 0, VNum (num_of_Z 42))] ∧
  w_heap w2 ≠ w_heap w1.
Proof.
  repeat split; try (vm_compute; reflexivity).
  vm_compute. intros H. discriminate H.
Qed.

(** C8, as amended: the translator keeps no state of its own.  Encoding
    leaves every object of the store as it is (it allocates new nodes and
    may register objects in the pool) and writes nothing to the console.
    Decoding changes nothing but the store, and its outcome and effect
    depend on the store and the pool only; but an array or dict node is
    decoded in place: the value returned is the node's own [data]
    container, and, when the entries of that container are plain nodes,
    each entry has been overwritten with the [data] of the node it held. *)
Theorem C8_translator_effects
    (tn : heap → value → number) (fuel : nat) (v : value) (w : world) :
  (w_heap w `prefix_of` w_heap (wrapToJson fuel v w).2 ∧
   w_console (wrapToJson fuel v w).2 = w_console w) ∧
  (∃ h, (unwrapFromJson tn fuel v w).2 = with_heap h w) ∧
  (∀ w0, same_input w w0 →
         (unwrapFromJson tn fuel v w).1 = (unwrapFromJson tn fuel v w0).1 ∧
         same_input (unwrapFromJson tn fuel v w).2 (unwrapFromJson tn fuel v w0).2) ∧
  (∀ ty r w',
     get_prop v (Name "type") w = (Ok ty, w) →
     ty = VStr "array" ∨ ty = VStr "dict" →
     unwrapFromJson tn fuel v w = (Ok r, w') →
     get_prop v (Name "data") w' = (Ok r, w')) ∧
  (∀ l d ty o,
     v = VObj l → (2 ≤ fuel)%nat → l ≠ d →
     read_prop (w_heap w) v (Name "type") = Ok ty →
     ty = VStr "array" ∨ ty = VStr "dict" →
     read_prop (w_heap w) v (Name "data") = Ok (VObj d) →
     w_heap w !! d = Some o →
     props_ordered (o_props o) →
     own_keys (o_kind o) (o_props o).*1 →
     Forall (plain_child (w_heap w) d) (o_props o) →
     ∃ o',
       unwrapFromJson tn fuel v w
       = (Ok (VObj d), with_heap (<[d := o']> (w_heap w)) w) ∧
       o_props o' = decoded_child (w_heap w) <$> o_props o).
Proof.
  split; [apply wrapToJson_extends|].
  split; [apply heap_only_unwrapFromJson|].
  split; [intros w0; apply input_determined_unwrapFromJson|].
  split; [intros ty r w'; apply unwrapFromJson_alias|].
  intros l d ty o -> Hfuel.
  destruct fuel as [|[|fuel']]; [lia.. |].
  by apply unwrapFromJson_flat_in_place.
Qed.

Lemma C8_translator_effects_witness :
  let w1 := (JSON_parse (JsonText (array_doc [plain_doc (JNum (num_of_Z 42))]))
               empty_world).2 in
  get_prop (VObj 2%nat) (Name "data")
    (unwrapFromJson sample_ToNumber 2 (VObj 2%nat) w1).2
  = (Ok (VObj 1%nat), (unwrapFromJson sample_ToNumber 2 (VObj 2%nat) w1).2).
Proof.
  intros w1.
  apply (proj1 (proj2 (proj2 (proj2
           (C8_translator_effects sample_ToNumber 2 (VObj 2%nat) w1))))
           (VStr "array") (VObj 1%nat));
    [reflexivity | by left | reflexivity].
Defined.

(* --------------------------------------------------------------------- *)
(** ** C9: dates *)
(* --------------------------------------------------------------------- *)

Lemma multiple_of_125_seconds_exact (t : Z) : (125 | t) → seconds_exact t.
Proof. intros [q ->]. exists q, 3. split; [lia|]. change (2 ^ 3) with 8. lia. Qed.

Lemma seconds_exact_divide (t : Z) : seconds_exact t → (125 | t).
Proof.
  intros (m & k & Hk & H).
  apply (Z.gauss 125 (2 ^ k) t).
  - exists (8 * m). lia.
  - apply Z.coprime_pow_r; [done | reflexivity].
Qed.

(** C9, date round trip: a valid date whose seconds value [t / 1000] is
    exact, that is a host number without rounding (the time value [t] is
    then a multiple of 125 ms), is encoded as the node
    [{type: date, data: t / 1000}], and decoding that node, which
    multiplies by 1000, builds a new date with the time value [t] again.
    For [t] = 1 500 000 ms the node carries the number 1500. *)
Theorem C9_date_round_trip
    (tn : heap → value → number) (fuel fuel' : nat) (w : world) (d : loc) (t : Z) :
  heap_kind (w_heap w) d = KDate (Some t) →
  Z.abs t ≤ 8640000000000000 →
  seconds_exact t →
  ∃ w1 w2,
    wrapToJson (S fuel) (VObj d) w = (Ok (VObj (length (w_heap w))), w1) ∧
    w_heap w1 = w_heap w ++
      [literal [("type", VStr "date");
                ("data", VNum (num_div (num_of_Z t) (num_of_Z 1000)))]] ∧
    unwrapFromJson tn (S fuel') (VObj (length (w_heap w))) w1
    = (Ok (VObj (length (w_heap w1))), w2) ∧
    w_heap w2 = w_heap w1 ++ [Object (KDate (Some t)) []] ∧
    (t = 1500000 → num_div (num_of_Z t) (num_of_Z 1000) = num_of_Z 1500).
Proof.
  intros Hk Ht Hex.
  set (node := literal [("type", VStr "date");
                        ("data", VNum (num_div (num_of_Z t) (num_of_Z 1000)))]).
  exists (with_heap (w_heap w ++ [node]) w).
  exists (with_heap ((w_heap w ++ [node]) ++ [Object (KDate (Some t)) []]) w).
  assert (Hnode : ∀ k, get_prop (VObj (length (w_heap w))) (Name k)
                         (with_heap (w_heap w ++ [node]) w)
                       = (Ok (default VUndefined (props_get (Name k) (o_props node))),
                          with_heap (w_heap w ++ [node]) w)).
  { intros k. unfold get_prop, read_prop, heap_kind, heap_props. simpl.
    by rewrite list_lookup_middle. }
  split.
  { cbn [wrapToJson isJsonNode]. unfold bind at 1, get_heap.
    unfold specifier_of. rewrite Hk. reflexivity. }
  split; [done|]. split.
  { cbn [unwrapFromJson]. rewrite (bind_ok _ _ _ _ _ (Hnode "type"%string)).
    simpl props_get. simpl default.
    rewrite decide_False by discriminate. rewrite decide_True by done.
    rewrite (bind_ok _ _ _ _ _ (Hnode "data"%string)).
    simpl props_get. simpl default. unfold ToNumber, bind at 1, ret, alloc.
    change (num_of_Z t) with (getTime (Some t)).
    rewrite scale_roundtrip by (done || by apply seconds_exact_divide).
    reflexivity. }
  split; [done|]. intros ->. reflexivity.
Qed.

Lemma C9_date_round_trip_witness :
  let w := with_heap [Object (KDate (Some 1500000)) []] empty_world in
  ∃ w1 w2,
    wrapToJson 1 (VObj 0%nat) w = (Ok (VObj 1%nat), w1) ∧
    w_heap w1 = w_heap w ++
      [literal [("type", VStr "date");
                ("data", VNum (num_div (num_of_Z 1500000) (num_of_Z 1000)))]] ∧
    unwrapFromJson sample_ToNumber 1 (VObj 1%nat) w1 = (Ok (VObj (length (w_heap w1))), w2) ∧
    w_heap w2 = w_heap w1 ++ [Object (KDate (Some 1500000)) []] ∧
    (1500000 = 1500000 → num_div (num_of_Z 1500000) (num_of_Z 1000) = num_of_Z 1500).
Proof.
  intros w.
  apply (C9_date_round_trip sample_ToNumber 0 0 w 0%nat 1500000).
  - reflexivity.
  - vm_compute. discriminate.
  - exists 1500, 0. split; [lia | reflexivity].
Defined.

(** C9 as stated does not hold for every date: the time value of a date
    is always a whole number of milliseconds, but its seconds value need not
    be a host number.  The date of 1001 ms is encoded with the number
    nearest to 1.001, and decoding that node builds the date of 1000 ms. *)
Lemma C9_date_of_1001_ms_decodes_to_1000_ms :
  let w := with_heap [Object (KDate (Some 1001)) []] empty_world in
  ∃ w1 w2,
    wrapToJson 1 (VObj 0%nat) w = (Ok (VObj 1%nat), w1) ∧
    w_heap w1 = w_heap w ++
      [literal [("type", VStr "date");
                ("data", VNum (num_div (num_of_Z 1001) (num_of_Z 1000)))]] ∧
    unwrapFromJson sample_ToNumber 1 (VObj 1%nat) w1 = (Ok (VObj 2%nat), w2) ∧
    heap_kind (w_heap w2) 2%nat = KDate (Some 1000).
Proof.
  intros w. eexists _, _.
  split; [reflexivity|]. split; [reflexivity|]. split; reflexivity.
Qed.

(** Without exactness the round trip can lose a millisecond: the date of
    1001 ms comes back as the date of 1000 ms. *)
Lemma date_1001_ms_comes_back_as_1000 :
  TimeClip (num_mul (num_div (getTime (Some 1001)) (num_of_Z 1000)) (num_of_Z 1000))
  = Some 1000.
Proof. reflexivity. Qed.

(* --------------------------------------------------------------------- *)
(** ** Further facts around C1 and C4 *)
(* --------------------------------------------------------------------- *)

(** What the defect of [getId] does to an encoding: the array [f, g, f] of
    two functions is encoded with the ids 1, 2, 2, so the third element
    decodes to [g]. *)
Lemma wrapToJson_repeated_object_gets_wrong_id :
  let w := with_heap [Object (KFunction "f") []; Object (KFunction "g") [];
                      array_object [VObj 0%nat; VObj 1%nat; VObj 0%nat]] empty_world in
  let w' := (wrapToJson 2 (VObj 2%nat) w).2 in
  (wrapToJson 2 (VObj 2%nat) w).1 = Ok (VObj 7%nat) ∧
  heap_props (w_heap w') 4%nat = o_props (reference_node 1 [("className", VStr "function")]) ∧
  heap_props (w_heap w') 5%nat = o_props (reference_node 2 [("className", VStr "function")]) ∧
  heap_props (w_heap w') 6%nat = o_props (reference_node 2 [("className", VStr "function")]) ∧
  getObject (VNum (num_of_Z 2)) w' = (Ok (VObj 1%nat), w').
Proof. repeat split; vm_compute; reflexivity. Qed.

(** The encoder of the first script does evaluate a specifier of unknown
    class; [wrapToJson] on the same world does not. *)
Lemma V1_wrapObjToJson_evaluates_unknown_specifier :
  EvEvaluate 0%nat ∈ w_events (V1.wrapObjToJson 2 (VObj 0%nat) specifier_world).2 ∧
  EvEvaluate 0%nat ∉ w_events (wrapToJson 2 (VObj 0%nat) specifier_world).2.
Proof.
  split.
  - vm_compute. apply list_elem_of_singleton. reflexivity.
  - vm_compute. intros H.
    repeat (apply elem_of_cons in H as [H | H]; [discriminate H|]).
    by apply elem_of_nil in H.
Qed.


(* ===================================================================== *)
(** * Further properties of the pool and of the id generator *)
(* ===================================================================== *)

Lemma release_absent (id : value) (w : world) :
  (∀ k, id_key id = Some k → _idObjectMap (w_pool w) !! k = None) →
  releaseObjectWithId id w = (Ok tt, w).
Proof.
  intros Habs. rewrite releaseObjectWithId_eq.
  rewrite (idObjectMap_get_None _ _ Habs).
  assert (Heq : match id_key id with
                | Some k => delete k (_idObjectMap (w_pool w))
                | None => _idObjectMap (w_pool w)
                end = _idObjectMap (w_pool w)).
  { destruct (id_key id) as [k|]; [|done]. apply delete_id. by apply Habs. }
  rewrite Heq. by destruct w as [h [c m1 m2] co ev g ca].
Qed.

(** X1, release of an absent id: releasing an id the pool does not hold
    (never allocated, already released, or not a number at all) does not
    throw and leaves the whole state as it is. *)
Theorem X1_release_absent_is_noop (id : value) (w : world) :
  (∀ k, id_key id = Some k → _idObjectMap (w_pool w) !! k = None) →
  releaseObjectWithId id w = (Ok tt, w).
Proof. apply release_absent. Qed.

Lemma X1_release_absent_is_noop_witness :
  releaseObjectWithId (VStr "1") (run_calls [CallGetId 0%nat] empty_world)
  = (Ok tt, run_calls [CallGetId 0%nat] empty_world).
Proof.
  apply (X1_release_absent_is_noop (VStr "1") (run_calls [CallGetId 0%nat] empty_world)).
  intros k Hk. discriminate Hk.
Defined.

(** X2, release is idempotent: a second release of the same id changes
    nothing more, whatever the state and the id. *)
Theorem X2_release_twice (id : value) (w : world) :
  releaseObjectWithId id (releaseObjectWithId id w).2
  = (Ok tt, (releaseObjectWithId id w).2).
Proof.
  apply release_absent. intros k Hk.
  rewrite releaseObjectWithId_eq. simpl. rewrite Hk. apply lookup_delete_eq.
Qed.

(** X3, release leaves the other handles alone: in a pool reached from the
    empty one, releasing the id [k] keeps every other id bound to its
    object and every other object bound to its id. *)
Theorem X3_release_keeps_other_handles
    (cs : list pool_call) (w0 : world) (id : value) (k k' : Z) (o' : loc) :
  w_pool w0 = new_pool →
  id_key id = Some k →
  k' ≠ k →
  _idObjectMap (w_pool (run_calls cs w0)) !! k' = Some o' →
  _idObjectMap (w_pool (releaseObjectWithId id (run_calls cs w0)).2) !! k' = Some o' ∧
  _objectIdMap (w_pool (releaseObjectWithId id (run_calls cs w0)).2) !! o' = Some k'.
Proof.
  intros H0 Hk Hne Ho'.
  assert (Hinv : pool_inv (w_pool (run_calls cs w0))).
  { apply pool_inv_run. rewrite H0. apply pool_inv_new. }
  pose proof (pool_inv_release id _ Hinv) as (_ & Hmi & _).
  assert (H1 : _idObjectMap (w_pool (releaseObjectWithId id (run_calls cs w0)).2) !! k'
               = Some o').
  { rewrite releaseObjectWithId_eq. simpl. rewrite Hk.
    by rewrite lookup_delete_ne. }
  split; [done | by apply Hmi].
Qed.

Lemma X3_release_keeps_other_handles_witness :
  let w := run_calls [CallGetId 0%nat; CallGetId 1%nat] empty_world in
  _idObjectMap (w_pool (releaseObjectWithId (VNum (num_of_Z 1)) w).2) !! 2 = Some 1%nat ∧
  _objectIdMap (w_pool (releaseObjectWithId (VNum (num_of_Z 1)) w).2) !! 1%nat = Some 2.
Proof.
  apply (X3_release_keeps_other_handles
           [CallGetId 0%nat; CallGetId 1%nat] empty_world (VNum (num_of_Z 1)) 1 2 1%nat);
    [reflexivity | reflexivity | lia | reflexivity].
Defined.

(** X4, lookup after registration: the id [getId] gives to an object that
    was not registered is bound to that object, and [getObject] finds it
    again through the number written into a reference node. *)
Theorem X4_getObject_after_getId (o : loc) (w : world) :
  _objectIdMap (w_pool w) !! o = None →
  0 ≤ _currentId (w_pool w) < 2 ^ 53 - 1 →
  ∃ i w',
    getId o w = (Ok i, w') ∧
    getObject (VNum (num_of_Z i)) w' = (Ok (VObj o), w').
Proof.
  intros Hnew Hc. eexists _, _. split; [apply (getId_fresh _ _ Hnew)|].
  rewrite getObject_eq. f_equal. f_equal.
  eapply idObjectMap_get_Some; [apply id_key_num_of_Z; lia|].
  apply lookup_insert_eq.
Qed.

Lemma X4_getObject_after_getId_witness :
  ∃ i w',
    getId 5%nat empty_world = (Ok i, w') ∧
    getObject (VNum (num_of_Z i)) w' = (Ok (VObj 5%nat), w').
Proof.
  apply (X4_getObject_after_getId 5%nat empty_world); [reflexivity | done].
Defined.

(** X5, the id generator of the first script is stable: whatever objects
    are registered in between, [getObjectId] gives an object the id it
    gave it the first time. *)
Theorem X5_getObjectId_same_object_same_id (os : list loc) (o : loc) (g : idgen) :
  (getObjectId o (idgen_calls os (getObjectId o g).2)).1 = (getObjectId o g).1.
Proof.
  pose proof (idgen_calls_keeps os _ _ _ (getObjectId_records o g)) as H.
  unfold getObjectId at 1. by rewrite H.
Qed.

(** X6, the id generator of the first script is injective: starting from
    the fresh generator, two distinct objects never get the same id. *)
Theorem X6_getObjectId_distinct_objects_distinct_ids
    (os1 os2 : list loc) (o1 o2 : loc) :
  o1 ≠ o2 →
  (getObjectId o2 (idgen_calls os2 (getObjectId o1 (idgen_calls os1 new_idgen)).2)).1
  ≠ (getObjectId o1 (idgen_calls os1 new_idgen)).1.
Proof.
  intros Hne. apply getObjectId_injective; [|done].
  apply idgen_calls_inv. split; [done|]. split; simpl; intros *; by rewrite lookup_empty.
Qed.

Lemma X6_getObjectId_distinct_objects_distinct_ids_witness :
  (getObjectId 1%nat (idgen_calls [0%nat] (getObjectId 0%nat (idgen_calls [] new_idgen)).2)).1
  ≠ (getObjectId 0%nat (idgen_calls [] new_idgen)).1.
Proof.
  apply (X6_getObjectId_distinct_objects_distinct_ids [] [0%nat] 0%nat 1%nat). done.
Defined.

(* ===================================================================== *)
(** * Further properties of class Util and of the encoding of specifiers *)
(* ===================================================================== *)

Lemma append_nil (s : string) : "" +:+ s = s.
Proof. reflexivity. Qed.

Lemma append_cons (a : ascii) (s t : string) : String a s +:+ t = String a (s +:+ t).
Proof. reflexivity. Qed.

Lemma is_quote_not_rparen q : is_quote q = true → q ≠ rparen.
Proof. intros H ->. discriminate H. Qed.

Lemma capture_name_spec (name rest : string) (q : ascii) :
  rparen ∉ chars name → is_quote q = true →
  capture_name (name +:+ String q (String rparen rest)) = Some name.
Proof.
  intros Hname Hq. induction name as [|a name IH].
  - rewrite append_nil. cbn [capture_name].
    rewrite decide_False by by apply is_quote_not_rparen.
    rewrite decide_True by done. by rewrite Hq.
  - cbn [chars] in Hname. apply not_elem_of_cons in Hname as [Ha Hname].
    specialize (IH Hname).
    assert (Hhead : ∃ c s', name +:+ String q (String rparen rest) = String c s' ∧ c ≠ rparen).
    { destruct name as [|b name].
      - rewrite append_nil. eexists _, _. split; [done|]. by apply is_quote_not_rparen.
      - rewrite append_cons. eexists _, _. split; [done|]. cbn [chars] in Hname.
        by apply not_elem_of_cons in Hname as [Hb _]. }
    destruct Hhead as (c & s' & Hs & Hc).
    rewrite append_cons. cbn [capture_name]. rewrite decide_False by done.
    rewrite Hs in IH |- *. rewrite decide_False by done. by rewrite IH.
Qed.

(** X7, application name: when the display string of a specifier starts
    with the word Application, an opening parenthesis, a quote, a name
    without closing parenthesis, a quote and a closing parenthesis,
    [getAssociatedApplicationName] returns that name, whatever follows;
    the two quotes need not be the same character. *)
Theorem X7_application_name_is_extracted
    (w : world) (l : loc) (sp : specifier) (q q' : ascii) (name rest : string) :
  heap_kind (w_heap w) l = KSpecifier sp →
  sp_display sp = "Application(" +:+ String q (name +:+ String q' (String rparen rest)) →
  is_quote q = true → is_quote q' = true →
  rparen ∉ chars name →
  (getAssociatedApplicationName (VObj l) w).1 = Ok (VStr name).
Proof.
  intros Hk Hd Hq Hq' Hname.
  unfold getAssociatedApplicationName, bind, get_heap.
  rewrite (specifier_of_obj _ _ _ Hk). unfold emit. rewrite Hd.
  unfold match_application.
  change ("Application(" +:+ String q (name +:+ String q' (String rparen rest)))
    with ("Application(" +:+ (String q (name +:+ String q' (String rparen rest)))).
  assert (Hstrip : ∀ s, strip_prefix "Application(" ("Application(" +:+ s) = Some s).
  { intros s. repeat rewrite append_cons. rewrite append_nil. cbn [strip_prefix].
    by repeat (rewrite decide_True by done). }
  rewrite Hstrip, Hq. by rewrite capture_name_spec.
Qed.

Lemma X7_application_name_is_extracted_witness :
  (getAssociatedApplicationName (VObj 0%nat) specifier_world).1 = Ok (VStr "Finder").
Proof.
  apply (X7_application_name_is_extracted specifier_world 0%nat unknown_specifier
           quote1 quote1 "Finder" ".selection");
    try reflexivity.
  intros H. repeat (apply elem_of_cons in H as [H | H]; [discriminate H|]).
  by apply elem_of_nil in H.
Defined.

Lemma getAssociatedApplicationName_eq (w : world) (l : loc) (sp : specifier) :
  heap_kind (w_heap w) l = KSpecifier sp →
  getAssociatedApplicationName (VObj l) w
  = (Ok (app_name sp), with_events (w_events w ++ [EvDisplayString l]) w).
Proof.
  intros Hk. unfold getAssociatedApplicationName, bind, get_heap, emit, ret, app_name.
  rewrite (specifier_of_obj _ _ _ Hk).
  by destruct (match_application (sp_display sp)).
Qed.

(** How [wrapToJson] encodes a specifier once its class has been guessed. *)
Lemma wrapToJson_specifier fuel w l sp g w1 :
  heap_kind (w_heap w) l = KSpecifier sp →
  guessClassOfSpecifier (VObj l) w = (Ok g, w1) →
  g = VUndefined ∨ (∃ c, g = VStr c) →
  ∃ i node w',
    wrapToJson (S fuel) (VObj l) w = (Ok (VObj (length (w_heap w))), w') ∧
    w_heap w' = w_heap w ++ [node] ∧
    o_kind node = KObject (Some "Object") ∧
    props_get (Name "type") (o_props node) = Some (VStr "reference") ∧
    props_get (Name "objId") (o_props node) = Some (VNum (num_of_Z i)) ∧
    props_get (Name "className") (o_props node) = Some (class_label g) ∧
    props_get (Name "app") (o_props node) = Some (app_name sp) ∧
    (getId l w).1 = Ok i ∧
    w_pool w' = w_pool (getId l w).2 ∧
    w_events w' = w_events w1 ++ [EvDisplayString l].
Proof.
  intros Hk Hg Hshape.
  destruct (guessClassOfSpecifier_frame (VObj l) w) as (evs & Hw1 & _).
  rewrite Hg in Hw1. simpl in Hw1. subst w1.
  destruct (getId_frame l w) as (i & p & Hid).
  pose proof (getId_with_events l (w_events w ++ evs) w) as Hid'.
  rewrite Hid in Hid'. simpl in Hid'.
  set (w2 := with_events (w_events w ++ evs) (with_pool p w)) in *.
  assert (Happ : getAssociatedApplicationName (VObj l) w2
                 = (Ok (app_name sp), with_events (w_events w2 ++ [EvDisplayString l]) w2))
    by by apply getAssociatedApplicationName_eq.
  assert (Hstep : ∀ rest,
    (let* objId := getId l in
     let* app := getAssociatedApplicationName (VObj l) in
     alloc (reference_node objId (rest app)))
      (with_events (w_events w ++ evs) w)
    = (Ok (VObj (length (w_heap w))),
       with_heap (w_heap w ++ [reference_node i (rest (app_name sp))])
         (with_events (w_events w2 ++ [EvDisplayString l]) w2))).
  { intros rest. rewrite (bind_ok _ _ _ _ _ Hid'). by rewrite (bind_ok _ _ _ _ _ Happ). }
  assert (Hstart : wrapToJson (S fuel) (VObj l) w
    = match g with
      | VUndefined =>
          (let* objId := getId l in
           let* app := getAssociatedApplicationName (VObj l) in
           alloc (reference_node objId [("app", app); ("className", VStr "unknown")]))
      | VStr c =>
          if decide (c = "application") then
            (let* objId := getId l in
             let* app := getAssociatedApplicationName (VObj l) in
             alloc (reference_node objId [("app", app); ("className", VStr "application")]))
          else if startsWith c "array::" then
            (let* objId := getId l in
             let* app := getAssociatedApplicationName (VObj l) in
             alloc (reference_node objId [("app", app); ("className", g)]))
          else
            (let* objId := getId l in
             let* app := getAssociatedApplicationName (VObj l) in
             alloc (reference_node objId [("className", g); ("app", app)]))
      | _ => throw (TypeError "guessClass.startsWith is not a function")
      end (with_events (w_events w ++ evs) w)).
  { cbn [wrapToJson isJsonNode]. rewrite (bind_ok _ _ (w_heap w) w w) by done.
    cbv beta. rewrite (specifier_of_obj _ _ _ Hk). cbv beta iota.
    by rewrite (bind_ok _ _ _ _ _ Hg). }
  rewrite Hstart, Hid. simpl fst. simpl snd.
  destruct Hshape as [-> | [c ->]].
  - rewrite (Hstep (λ app, [("app", app); ("className", VStr "unknown")])).
    by eexists i, _, _.
  - destruct (decide (c = "application")) as [-> | Hc].
    + rewrite (Hstep (λ app, [("app", app); ("className", VStr "application")])).
      by eexists i, _, _.
    + destruct (startsWith c "array::").
      * rewrite (Hstep (λ app, [("app", app); ("className", VStr c)])).
        by eexists i, _, _.
      * rewrite (Hstep (λ app, [("className", VStr c); ("app", app)])).
        by eexists i, _, _.
Qed.


(** Reading a freshly allocated object literal. *)
Lemma read_prop_last (h : heap) (o : object) (k : string) :
  o_kind o = KObject (Some "Object") →
  read_prop (h ++ [o]) (VObj (length h)) (Name k)
  = Ok (default VUndefined (props_get (Name k) (o_props o))).
Proof.
  intros Hk. unfold read_prop, heap_kind, heap_props.
  rewrite list_lookup_middle by done. by rewrite Hk.
Qed.


(** The class guess when the class query is made and fails. *)
Lemma guessClassOfSpecifier_query_fails (w : world) (l : loc) (sp : specifier) (e : error) :
  heap_kind (w_heap w) l = KSpecifier sp →
  sp_classOf sp ≠ Some "application" →
  sp_whose sp && sp_at sp = false →
  sp_class sp = Some (HostThrows e) →
  guessClassOfSpecifier (VObj l) w
  = (Ok (if decide (errorNumber e = Some (-1700))
         then opt_string_value (sp_classOf sp) else VUndefined),
     with_events (w_events w ++ [EvClassOf l; EvClassQuery l]) w).
Proof.
  intros Hk Hc Hcont Hq.
  unfold guessClassOfSpecifier, guessIsSpecifierContainer, bind, get_heap, emit,
    specifier_of.
  simpl. rewrite Hk. rewrite decide_False by done. simpl. rewrite Hk.
  unfold ret at 1. rewrite Hcont, Hq.
  unfold try_catch, of_host, throw, with_events. simpl.
  rewrite <- app_assoc. by case_decide.
Qed.

(** X8, a failing class query does not fail the encoding: for a specifier
    that is neither the application nor a container and whose [class()]
    call throws, [wrapToJson] still returns a reference node; its
    className is the class the Automation layer knows ([classOf]) when
    the error number is -1700, and "unknown" for any other error or when
    no class is known. *)
Theorem X8_class_query_failure_falls_back
    (fuel : nat) (w : world) (l : loc) (sp : specifier) (e : error) :
  heap_kind (w_heap w) l = KSpecifier sp →
  sp_classOf sp ≠ Some "application" →
  sp_whose sp && sp_at sp = false →
  sp_class sp = Some (HostThrows e) →
  ∃ w',
    wrapToJson (S fuel) (VObj l) w = (Ok (VObj (length (w_heap w))), w') ∧
    read_prop (w_heap w') (VObj (length (w_heap w))) (Name "type")
    = Ok (VStr "reference") ∧
    read_prop (w_heap w') (VObj (length (w_heap w))) (Name "className")
    = Ok (match sp_classOf sp with
          | Some c => if decide (errorNumber e = Some (-1700))
                      then VStr c else VStr "unknown"
          | None => VStr "unknown"
          end).
Proof.
  intros Hk Hc Hcont Hq.
  pose proof (guessClassOfSpecifier_query_fails w l sp e Hk Hc Hcont Hq) as Hg.
  destruct (wrapToJson_specifier fuel w l sp _ _ Hk Hg)
    as (i & node & w' & Hwrap & Hheap & Hkind & Hty & _ & Hcls & _).
  { case_decide; [|by left]. destruct (sp_classOf sp); [right; by eexists | by left]. }
  exists w'. split; [done|]. rewrite Hheap, !read_prop_last by done.
  rewrite Hty, Hcls. split; [done|]. simpl. f_equal.
  case_decide; destruct (sp_classOf sp); done.
Qed.

Lemma X8_class_query_failure_falls_back_witness :
  let sp := Specifier (Some "document") false false
              (Some (HostThrows (Error "Error" "Can't convert types." (Some (-1700)))))
              "Application('Finder').documents[0]" (HostReturns VNull) in
  let w := with_heap [Object (KSpecifier sp) []] empty_world in
  ∃ w',
    wrapToJson 1 (VObj 0%nat) w = (Ok (VObj (length (w_heap w))), w') ∧
    read_prop (w_heap w') (VObj (length (w_heap w))) (Name "type")
    = Ok (VStr "reference") ∧
    read_prop (w_heap w') (VObj (length (w_heap w))) (Name "className")
    = Ok (match sp_classOf sp with
          | Some c => if decide (errorNumber (Error "Error" "Can't convert types."
                                                (Some (-1700))) = Some (-1700))
                      then VStr c else VStr "unknown"
          | None => VStr "unknown"
          end).
Proof.
  intros sp w.
  apply (X8_class_query_failure_falls_back 0 w 0%nat sp
           (Error "Error" "Can't convert types." (Some (-1700))));
    [reflexivity | discriminate | reflexivity | reflexivity].
Defined.

Lemma guessClassOfSpecifier_container (w : world) (l : loc) (sp : specifier) :
  heap_kind (w_heap w) l = KSpecifier sp →
  sp_classOf sp ≠ Some "application" →
  sp_whose sp && sp_at sp = true →
  guessClassOfSpecifier (VObj l) w
  = (Ok (VStr (array_class (sp_classOf sp))),
     with_events (w_events w ++ [EvClassOf l]) w).
Proof.
  intros Hk Hc Hcont.
  unfold guessClassOfSpecifier, guessIsSpecifierContainer, bind, get_heap, emit,
    specifier_of.
  simpl. rewrite Hk. rewrite decide_False by done. simpl. rewrite Hk.
  unfold ret at 1. by rewrite Hcont.
Qed.

(** X9, containers: a specifier whose prototype has both [whose] and [at]
    (and whose class is not the application) is encoded with the className
    "array::" followed by its [classOf], and the encoding neither queries
    its class nor evaluates it: the only Automation calls are [classOf]
    and [getDisplayString]. *)
Theorem X9_container_specifier_is_an_array_reference
    (fuel : nat) (w : world) (l : loc) (sp : specifier) :
  heap_kind (w_heap w) l = KSpecifier sp →
  sp_classOf sp ≠ Some "application" →
  sp_whose sp && sp_at sp = true →
  ∃ w',
    wrapToJson (S fuel) (VObj l) w = (Ok (VObj (length (w_heap w))), w') ∧
    read_prop (w_heap w') (VObj (length (w_heap w))) (Name "type")
    = Ok (VStr "reference") ∧
    read_prop (w_heap w') (VObj (length (w_heap w))) (Name "className")
    = Ok (VStr (array_class (sp_classOf sp))) ∧
    w_events w' = w_events w ++ [EvClassOf l; EvDisplayString l].
Proof.
  intros Hk Hc Hcont.
  pose proof (guessClassOfSpecifier_container w l sp Hk Hc Hcont) as Hg.
  destruct (wrapToJson_specifier fuel w l sp _ _ Hk Hg)
    as (i & node & w' & Hwrap & Hheap & Hkind & Hty & _ & Hcls & _ & _ & _ & Hev).
  { right. by eexists. }
  exists w'. split; [done|]. rewrite Hheap, !read_prop_last by done.
  rewrite Hty, Hcls. repeat split; try done.
  rewrite Hev. simpl. by rewrite <- app_assoc.
Qed.

Lemma X9_container_specifier_is_an_array_reference_witness :
  let sp := Specifier (Some "window") true true
              (Some (HostThrows (Error "Error" "no such object" (Some (-1728)))))
              "Application('Finder').windows" (HostThrows (PlainError "no windows")) in
  let w := with_heap [Object (KSpecifier sp) []] empty_world in
  ∃ w',
    wrapToJson 1 (VObj 0%nat) w = (Ok (VObj (length (w_heap w))), w') ∧
    read_prop (w_heap w') (VObj (length (w_heap w))) (Name "type")
    = Ok (VStr "reference") ∧
    read_prop (w_heap w') (VObj (length (w_heap w))) (Name "className")
    = Ok (VStr (array_class (sp_classOf sp))) ∧
    w_events w' = w_events w ++ [EvClassOf 0%nat; EvDisplayString 0%nat].
Proof.
  intros sp w.
  apply (X9_container_specifier_is_an_array_reference 0 w 0%nat sp);
    [reflexivity | discriminate | reflexivity].
Defined.

(** ** The encoder never evaluates *)

Lemma never_evaluates_silent {A} (m : M A) :
  (∀ w, w_events (m w).2 = w_events w) → never_evaluates m.
Proof.
  intros H w. exists []. rewrite H, app_nil_r. split; [done|].
  intros l. apply not_elem_of_nil.
Qed.

Lemma never_evaluates_bind {A B} (m : M A) (f : A → M B) :
  never_evaluates m → (∀ a, never_evaluates (f a)) → never_evaluates (bind m f).
Proof.
  intros Hm Hf w. destruct (Hm w) as (evs & Hev & Hno). unfold bind.
  destruct (m w) as [[a | e |] w1]; simpl in *; [|by exists evs..].
  destruct (Hf a w1) as (evs' & Hev' & Hno').
  exists (evs ++ evs'). rewrite Hev', Hev, app_assoc. split; [done|].
  intros l [H | H]%elem_of_app; [by apply (Hno l) | by apply (Hno' l)].
Qed.

Lemma never_evaluates_for_each {A} (xs : list A) (body : A → M unit) :
  (∀ x, never_evaluates (body x)) → never_evaluates (for_each xs body).
Proof.
  intros Hb. induction xs as [|x xs IH]; simpl; [by apply never_evaluates_silent|].
  apply never_evaluates_bind; [apply Hb | intros _; apply IH].
Qed.

Lemma never_evaluates_getId o : never_evaluates (getId o).
Proof.
  apply never_evaluates_silent. intros w.
  by destruct (getId_frame o w) as (i & p & ->).
Qed.

Lemma never_evaluates_guessClassOfSpecifier v :
  never_evaluates (guessClassOfSpecifier v).
Proof.
  intros w. destruct (guessClassOfSpecifier_frame v w) as (evs & -> & Hno).
  by exists evs.
Qed.

Lemma never_evaluates_getAssociatedApplicationName v :
  never_evaluates (getAssociatedApplicationName v).
Proof.
  intros w. unfold getAssociatedApplicationName, bind, get_heap, emit, ret.
  destruct (specifier_of (w_heap w) v) as [[l sp]|]; simpl.
  - exists [EvDisplayString l].
    split; [by destruct (match_application _)|].
    intros l' [=]%list_elem_of_singleton.
  - exists []. rewrite app_nil_r. split; [done | intros l'; apply not_elem_of_nil].
Qed.

Lemma never_evaluates_constructor_name l ctor :
  never_evaluates (constructor_name l ctor).
Proof.
  apply never_evaluates_silent. intros w.
  by destruct (constructor_name_cases l ctor w) as [[x ->] | [e ->]].
Qed.

Lemma never_evaluates_alloc o : never_evaluates (alloc o).
Proof. by apply never_evaluates_silent. Qed.

Lemma never_evaluates_throw {A} e : never_evaluates (@throw A e).
Proof. by apply never_evaluates_silent. Qed.

Lemma never_evaluates_get_prop v k : never_evaluates (get_prop v k).
Proof. apply never_evaluates_silent. intros w. by rewrite get_prop_world. Qed.

Lemma never_evaluates_put_prop v k x : never_evaluates (put_prop v k x).
Proof. apply never_evaluates_silent. intros w. unfold put_prop. by repeat case_match. Qed.

(** X10, the encoder never evaluates: whatever the value (a specifier of
    any class, or arrays and dictionaries that contain specifiers, at any
    depth) and whether it succeeds or throws, [wrapToJson] makes no call
    [s()] of a specifier; the Automation calls it adds to the trace are
    class and display-string queries only. *)
Theorem X10_wrapToJson_never_evaluates (fuel : nat) (v : value) (w : world) :
  ∃ evs,
    w_events (wrapToJson fuel v w).2 = w_events w ++ evs ∧
    ∀ l, EvEvaluate l ∉ evs.
Proof.
  revert w. change (never_evaluates (wrapToJson fuel v)).
  revert v. induction fuel as [|fuel IH]; intros v;
    [by apply never_evaluates_silent|].
  cbn [wrapToJson].
  destruct (isJsonNode _); [apply never_evaluates_alloc|].
  apply never_evaluates_bind; [by apply never_evaluates_silent|]. intros h.
  destruct (specifier_of h _) as [[l sp]|].
  { apply never_evaluates_bind; [apply never_evaluates_guessClassOfSpecifier|].
    intros g. destruct g; try apply never_evaluates_throw.
    - apply never_evaluates_bind; [apply never_evaluates_getId|]. intros i.
      apply never_evaluates_bind;
        [apply never_evaluates_getAssociatedApplicationName|]. intros a.
      apply never_evaluates_alloc.
    - repeat case_match;
        (apply never_evaluates_bind; [apply never_evaluates_getId|]; intros i;
         apply never_evaluates_bind;
           [apply never_evaluates_getAssociatedApplicationName|]; intros a;
         apply never_evaluates_alloc). }
  destruct (match v with VUndefined => VNull | _ => v end) as [| | | | | | |l];
    try apply never_evaluates_throw.
  destruct (heap_kind h l).
  - apply never_evaluates_bind; [apply never_evaluates_constructor_name|].
    intros name. case_decide; [|apply never_evaluates_throw].
    apply never_evaluates_bind; [apply never_evaluates_alloc|]. intros d.
    apply never_evaluates_bind; [|intros _; apply never_evaluates_alloc].
    apply never_evaluates_for_each. intros k.
    apply never_evaluates_bind; [apply never_evaluates_get_prop|]. intros x.
    apply never_evaluates_bind; [apply IH|]. intros y.
    apply never_evaluates_put_prop.
  - apply never_evaluates_bind; [apply never_evaluates_alloc|]. intros d.
    apply never_evaluates_bind; [|intros _; apply never_evaluates_alloc].
    apply never_evaluates_for_each. intros k.
    apply never_evaluates_bind; [apply never_evaluates_get_prop|]. intros x.
    apply never_evaluates_bind; [apply IH|]. intros y.
    apply never_evaluates_put_prop.
  - apply never_evaluates_alloc.
  - apply never_evaluates_bind; [apply never_evaluates_getId|]. intros i.
    apply never_evaluates_alloc.
  - apply never_evaluates_bind; [apply never_evaluates_getId|]. intros i.
    apply never_evaluates_alloc.
Qed.


(* ===================================================================== *)
(** * Round trips through the two translators *)
(* ===================================================================== *)

Lemma get_prop_last (w : world) (h : heap) (o : object) (k : string) :
  w_heap w = h ++ [o] →
  o_kind o = KObject (Some "Object") →
  get_prop (VObj (length h)) (Name k) w
  = (Ok (default VUndefined (props_get (Name k) (o_props o))), w).
Proof. intros Hh Hk. unfold get_prop. by rewrite Hh, read_prop_last. Qed.




(** X12, round trip of primitives: [null], a boolean, a number or a string
    is encoded as a new plain node that carries it, and decoding the node
    gives the value back; [undefined] is encoded as a plain [null] and comes
    back as [null].  Pool, console and Automation trace are not touched. *)
Theorem X12_primitive_round_trip
    (tn : heap → value → number) (fuel fuel' : nat) (w : world) (v : value) :
  isJsonNode v = true →
  let v' := match v with VUndefined => VNull | _ => v end in
  let w1 := with_heap (w_heap w ++ [literal [("type", VStr "plain"); ("data", v')]]) w in
  wrapToJson (S fuel) v w = (Ok (VObj (length (w_heap w))), w1) ∧
  unwrapFromJson tn (S fuel') (VObj (length (w_heap w))) w1 = (Ok v', w1).
Proof.
  intros Hv v' w1.
  assert (Hv' : isJsonNode v' = true) by by destruct v.
  split.
  - cbn [wrapToJson]. fold v'. by rewrite Hv'.
  - set (node := literal [("type", VStr "plain"); ("data", v')]).
    cbn [unwrapFromJson].
    rewrite (bind_ok _ _ _ _ _ (get_prop_last w1 (w_heap w) node "type" eq_refl eq_refl)).
    rewrite decide_True by done.
    rewrite (get_prop_last w1 (w_heap w) node "data" eq_refl eq_refl).
    reflexivity.
Qed.

Lemma X12_primitive_round_trip_witness :
  let w1 := with_heap [literal [("type", VStr "plain"); ("data", VNull)]] empty_world in
  wrapToJson 1 VUndefined empty_world = (Ok (VObj 0%nat), w1) ∧
  unwrapFromJson sample_ToNumber 1 (VObj 0%nat) w1 = (Ok VNull, w1).
Proof.
  apply (X12_primitive_round_trip sample_ToNumber 0 0 empty_world VUndefined).
  reflexivity.
Defined.

(* ===================================================================== *)
(** * Edge cases of the encoder *)
(* ===================================================================== *)

(** X13, a key named constructor: an object that has an own property
    [constructor] holding a primitive value (as the decoded request
    [{constructor: 5}] has) cannot be encoded.  [obj.constructor.name] is
    then not the string Object, or cannot be read at all, and [wrapToJson]
    throws without changing the state. *)
Theorem X13_own_constructor_key_is_not_encodable
    (fuel : nat) (w : world) (l : loc) (ctor : option string) (c : value) :
  heap_kind (w_heap w) l = KObject ctor →
  props_get (Name "constructor") (heap_props (w_heap w) l) = Some c →
  isJsonNode c = true →
  ∃ e, wrapToJson (S fuel) (VObj l) w = (Throw e, w).
Proof.
  intros Hk Hc Hprim. apply wrapToJson_unclassifiable.
  right. right. exists l, ctor. split; [done|]. split; [done|].
  unfold constructor_name, bind, get_heap. rewrite Hc.
  unfold get_prop. simpl.
  destruct c as [| | | | s | | |]; try discriminate Hprim; simpl; try discriminate.
Qed.

Lemma X13_own_constructor_key_is_not_encodable_witness :
  let w := with_heap [Object (KObject (Some "Object"))
                        [(Name "constructor", VNum (num_of_Z 5))]] empty_world in
  ∃ e, wrapToJson 1 (VObj 0%nat) w = (Throw e, w).
Proof.
  intros w.
  apply (X13_own_constructor_key_is_not_encodable 0 w 0%nat (Some "Object"%string)
           (VNum (num_of_Z 5)));
    reflexivity.
Defined.

(* ===================================================================== *)
(** * The encoder of the first script *)
(* ===================================================================== *)

(** X14, the first script dereferences: when the class guess of a
    specifier is [undefined], [wrapObjToJson] of the first script calls
    the specifier and encodes what the call returns; when the call
    throws, the encoding throws the same error. *)
Theorem X14_V1_unknown_class_is_evaluated
    (fuel : nat) (w w1 : world) (l : loc) (sp : specifier) :
  heap_kind (w_heap w) l = KSpecifier sp →
  V1.guessClassOfSpecifier (VObj l) w = (Ok VUndefined, w1) →
  V1.wrapObjToJson (S fuel) (VObj l) w
  = (let* evaluated := of_host (sp_call sp) in V1.wrapObjToJson fuel evaluated)
      (with_events (w_events w1 ++ [EvEvaluate l]) w1) ∧
  (∀ e, sp_call sp = HostThrows e →
        V1.wrapObjToJson (S fuel) (VObj l) w
        = (Throw e, with_events (w_events w1 ++ [EvEvaluate l]) w1)).
Proof.
  intros Hk Hg.
  assert (Hstep : V1.wrapObjToJson (S fuel) (VObj l) w
    = (let* evaluated := of_host (sp_call sp) in V1.wrapObjToJson fuel evaluated)
        (with_events (w_events w1 ++ [EvEvaluate l]) w1)).
  { cbn [V1.wrapObjToJson V1.isJsonNodeValue isJsonNode].
    rewrite (bind_ok _ _ (w_heap w) w w) by done. cbv beta. rewrite Hk.
    rewrite (bind_ok _ _ _ _ _ Hg). cbv beta iota.
    unfold bind at 1. unfold bind at 2. unfold emit. reflexivity. }
  split; [done|]. intros e He. rewrite Hstep, He. reflexivity.
Qed.

Lemma X14_V1_unknown_class_is_evaluated_witness :
  let w1 := specifier_world in
  V1.wrapObjToJson 2 (VObj 0%nat) specifier_world
  = (let* evaluated := of_host (sp_call unknown_specifier) in
     V1.wrapObjToJson 1 evaluated)
      (with_events (w_events w1 ++ [EvEvaluate 0%nat]) w1) ∧
  (∀ e, sp_call unknown_specifier = HostThrows e →
        V1.wrapObjToJson 2 (VObj 0%nat) specifier_world
        = (Throw e, with_events (w_events w1 ++ [EvEvaluate 0%nat]) w1)).
Proof.
  intros w1.
  apply (X14_V1_unknown_class_is_evaluated 1 specifier_world w1 0%nat unknown_specifier);
    reflexivity.
Defined.

(* ===================================================================== *)
(** * Further properties of the wrapped functions *)
(* ===================================================================== *)

Lemma unwrapFromJson_untyped tn fuel (obj ty : value) (w : world) :
  get_prop obj (Name "type") w = (Ok ty, w) →
  ty ∉ [VStr "plain"; VStr "date"; VStr "array"; VStr "dict"; VStr "reference"] →
  unwrapFromJson tn (S fuel) obj w = (Ok VUndefined, w).
Proof.
  intros Hty Hno. cbn [unwrapFromJson]. rewrite (bind_ok _ _ _ _ _ Hty).
  assert (Hin : ∀ t, t ∈ ["plain"; "date"; "array"; "dict"; "reference"]%string →
                     ty ≠ VStr t).
  { intros t Ht ->. apply Hno.
    repeat (apply elem_of_cons in Ht as [-> | Ht];
            [repeat (apply elem_of_cons; ((by left) || right))|]).
    by apply elem_of_nil in Ht. }
  assert (Hmem : ∀ t, t ∈ ["plain"; "date"; "array"; "dict"; "reference"]%string ↔
                      t = "plain"%string ∨ t = "date"%string ∨ t = "array"%string ∨
                      t = "dict"%string ∨ t = "reference"%string).
  { intros t. rewrite !elem_of_cons, elem_of_nil. tauto. }
  rewrite !decide_False; [done | ..].
  - apply Hin, Hmem. tauto.
  - intros [H | H]; revert H; apply Hin, Hmem; tauto.
  - apply Hin, Hmem. tauto.
  - apply Hin, Hmem. tauto.
Qed.

(** X15, a request without a known type tag is not rejected: when the
    parsed request is a bare number, string or boolean, or an object whose
    [type] is none of plain, date, array, dict and reference, decoding
    yields [undefined] without throwing or logging, and the operation is
    called with [undefined] in place of the request. *)
Theorem X15_untyped_request_is_read_as_undefined
    (tn : heap → value → number) (iso : Z → string) (fuel : nat)
    (func : value → M value) (strParams : wire)
    (w w0 : world) (p ty : value) :
  JSON_parse strParams w = (Ok p, w0) →
  get_prop p (Name "type") w0 = (Ok ty, w0) →
  ty ∉ [VStr "plain"; VStr "date"; VStr "array"; VStr "dict"; VStr "reference"] →
  strIOFuncWrapper tn iso (S fuel) func strParams w
  = (let* result := func VUndefined in
     let* result :=
       try_catch (wrapToJson (S fuel) result)
                 (λ error, console_log (LogWrapResult error) >> ret result) in
     JSON_stringify iso (S fuel) result) w0.
Proof.
  intros Hp Hty Hno. apply wrapper_after_decode.
  rewrite (bind_ok _ _ _ _ _ Hp). apply try_catch_ok.
  by apply (unwrapFromJson_untyped tn fuel p ty).
Qed.

Lemma X15_untyped_request_is_read_as_undefined_witness :
  strIOFuncWrapper sample_ToNumber sample_toISOString 1 _echo
    (JsonText (JNum (num_of_Z 5))) empty_world
  = (let* result := _echo VUndefined in
     let* result :=
       try_catch (wrapToJson 1 result)
                 (λ error, console_log (LogWrapResult error) >> ret result) in
     JSON_stringify sample_toISOString 1 result) empty_world.
Proof.
  apply (X15_untyped_request_is_read_as_undefined sample_ToNumber sample_toISOString 0
           _echo (JsonText (JNum (num_of_Z 5))) empty_world empty_world
           (VNum (num_of_Z 5)) VUndefined).
  - reflexivity.
  - reflexivity.
  - intros H. repeat (apply elem_of_cons in H as [H | H]; [discriminate H|]).
    by apply elem_of_nil in H.
Defined.



Lemma serialize_primitive iso fuel stack (j : json) (w : world) :
  wire_primitive j = true →
  serialize iso (S fuel) stack (primitive_value j) w = (Ok (Some j), w).
Proof.
  intros Hj. destruct j as [| b | x | s | |]; try discriminate Hj; try reflexivity.
  destruct x as [[] | | | ]; try discriminate Hj; reflexivity.
Qed.

Lemma primitive_value_isJsonNode (j : json) :
  wire_primitive j = true →
  isJsonNode (primitive_value j) = true ∧ primitive_value j ≠ VUndefined.
Proof. destruct j; try discriminate; by split. Qed.

Lemma serialize_object iso fuel stack (l : loc) (w : world) (c : option string) :
  heap_kind (w_heap w) l = KObject c →
  l ∉ stack →
  serialize iso (S fuel) stack (VObj l) w
  = (let* members :=
       map_M (λ k, let* x := get_prop (VObj l) k in
                   let* r := serialize iso fuel (l :: stack) x in
                   ret (pair k <$> r))
             (for_in_keys (w_heap w) (VObj l)) in
     ret (Some (JObj (omap id members)))) w.
Proof.
  intros Hk Hs. cbn [serialize]. unfold bind at 1, get_heap. rewrite Hk.
  by rewrite decide_False.
Qed.

(** Serializing a plain node that was allocated last. *)
Lemma stringify_plain_last iso fuel (w : world) (h : heap) (j : json) :
  w_heap w = h ++ [literal [("type", VStr "plain"); ("data", primitive_value j)]] →
  wire_primitive j = true →
  JSON_stringify iso (S (S fuel)) (VObj (length h)) w = (Ok (Some (plain_doc j)), w).
Proof.
  intros Hh Hj. unfold JSON_stringify.
  set (node := literal [("type", VStr "plain"); ("data", primitive_value j)]) in *.
  rewrite (serialize_object iso (S fuel) [] (length h) w (Some "Object"%string)).
  2: { unfold heap_kind. by rewrite Hh, list_lookup_middle. }
  2: { apply not_elem_of_nil. }
  unfold for_in_keys, heap_props. rewrite Hh, list_lookup_middle by done.
  cbn [node literal o_props fmap list_fmap prod_map fst snd map_M].
  assert (Hmember : ∀ k j',
    props_get (Name k) (o_props node) = Some (primitive_value j') →
    wire_primitive j' = true →
    (let* x := get_prop (VObj (length h)) (Name k) in
     let* r := serialize iso (S fuel) [length h] x in
     ret (pair (Name k) <$> r)) w = (Ok (Some (Name k, j')), w)).
  { intros k j' Hget Hj'.
    rewrite (bind_ok _ _ _ _ _ (get_prop_last w h node k Hh eq_refl)).
    rewrite Hget. cbn [default from_option id].
    by rewrite (bind_ok _ _ _ _ _ (serialize_primitive iso fuel _ j' w Hj')). }
  rewrite (bind_ok _ _ [Some (Name "type", JStr "plain"); Some (Name "data", j)] w w);
    [done|].
  rewrite (bind_ok _ _ _ _ _ (Hmember "type"%string (JStr "plain") eq_refl eq_refl)).
  rewrite (bind_ok _ _ [Some (Name "data", j)] w w); [done|].
  rewrite (bind_ok _ _ _ _ _ (Hmember "data"%string j eq_refl Hj)).
  reflexivity.
Qed.

(** X17, echo of a plain primitive: the bridge function [echo], sent the
    document [{type: plain, data: j}] for a primitive [j] ([null], a
    boolean, a string, or a finite number other than negative zero),
    answers the same document; it throws nothing, logs nothing and leaves
    the pool as it is. *)
Theorem X17_echo_returns_a_plain_primitive
    (tn : heap → value → number) (iso : Z → string) (fuel : nat)
    (j : json) (w : world) :
  wire_primitive j = true →
  let node := literal [("type", VStr "plain"); ("data", primitive_value j)] in
  echo tn iso (S (S fuel)) (JsonText (plain_doc j)) w
  = (Ok (Some (plain_doc j)), with_heap (w_heap w ++ [node; node]) w).
Proof.
  intros Hj node.
  destruct (primitive_value_isJsonNode j Hj) as [Hprim Hdef].
  set (w0 := with_heap (w_heap w ++ [node]) w).
  set (w1 := with_heap (w_heap w ++ [node; node]) w).
  assert (Hparse : JSON_parse (JsonText (plain_doc j)) w = (Ok (VObj (length (w_heap w))), w0)).
  { unfold JSON_parse, plain_doc. cbn [parse_json].
    assert (Hjv : parse_json j = ret (primitive_value j))
      by (destruct j; try discriminate Hj; reflexivity).
    rewrite Hjv. reflexivity. }
  assert (Hdec : unwrapFromJson tn (S (S fuel)) (VObj (length (w_heap w))) w0
                 = (Ok (primitive_value j), w0)).
  { cbn [unwrapFromJson].
    rewrite (bind_ok _ _ _ _ _ (get_prop_last w0 (w_heap w) node "type" eq_refl eq_refl)).
    rewrite decide_True by done.
    by rewrite (get_prop_last w0 (w_heap w) node "data" eq_refl eq_refl). }
  assert (Henc : wrapToJson (S (S fuel)) (primitive_value j) w0
                 = (Ok (VObj (length (w_heap w0))), w1)).
  { cbn [wrapToJson].
    replace (match primitive_value j with VUndefined => VNull | _ => primitive_value j end)
      with (primitive_value j) by by destruct (primitive_value j).
    rewrite Hprim. unfold alloc, w1, w0. simpl. by rewrite <- app_assoc. }
  unfold echo. erewrite wrapper_after_decode.
  2: { rewrite (bind_ok _ _ _ _ _ Hparse). by apply try_catch_ok. }
  unfold _echo. rewrite (bind_ok _ _ (primitive_value j) w0 w0) by done.
  rewrite (bind_ok _ _ _ _ _ (try_catch_ok _ _ _ _ _ Henc)).
  apply (stringify_plain_last iso fuel w1 (w_heap w0) j); [|done].
  unfold w1, w0. simpl. by rewrite <- app_assoc.
Qed.

Lemma X17_echo_returns_a_plain_primitive_witness :
  let node := literal [("type", VStr "plain"); ("data", VStr "x")] in
  echo sample_ToNumber sample_toISOString 2 (JsonText (plain_doc (JStr "x"))) empty_world
  = (Ok (Some (plain_doc (JStr "x"))), with_heap [node; node] empty_world).
Proof.
  apply (X17_echo_returns_a_plain_primitive sample_ToNumber sample_toISOString 0
           (JStr "x") empty_world).
  reflexivity.
Defined.

Lemma read_prop_literal (h : heap) (a : loc) (o : object) (k : pkey) (c : option string) :
  h !! a = Some o → o_kind o = KObject c →
  read_prop h (VObj a) k = Ok (default VUndefined (props_get k (o_props o))).
Proof. intros Ha Hk. unfold read_prop, heap_kind, heap_props. by rewrite Ha, Hk. Qed.

Lemma read_prop_plain_key (h : heap) (a : loc) (o : object) (k : pkey) :
  h !! a = Some o → k ≠ Name "length" → k ≠ Name "name" →
  read_prop h (VObj a) k = Ok (default VUndefined (props_get k (o_props o))).
Proof.
  intros Ha H1 H2. unfold read_prop, heap_kind, heap_props. rewrite Ha.
  destruct (o_kind o); try done; by rewrite decide_False.
Qed.

(** X18, the bridge function [releaseObjectWithId] end to end: sent the
    request [{type: dict, data: {id: {type: plain, data: x}}}], it
    releases the id [x] in the pool exactly as the pool's own
    [releaseObjectWithId] does, logs nothing, and answers the document
    [{type: plain, data: null}]; this holds in every state and for every
    number [x], registered or not. *)
Theorem X18_release_request_releases_the_id
    (tn : heap → value → number) (iso : Z → string) (fuel : nat)
    (x : number) (w : world) :
  ∃ w',
    bridge_releaseObjectWithId tn iso (S (S fuel)) (JsonText (release_request x)) w
    = (Ok (Some (plain_doc JNull)), w') ∧
    w_pool w' = w_pool (releaseObjectWithId (VNum x) w).2 ∧
    w_console w' = w_console w ∧
    w_events w' = w_events w.
Proof.
  set (h := w_heap w).
  set (node0 := literal [("type", VStr "plain"); ("data", VNum x)]).
  set (c := length h).
  set (dobj := Object (KObject (Some "Object")) [(Name "id", VObj c)]).
  set (d := length (h ++ [node0])).
  set (outer := Object (KObject (Some "Object"))
                  [(Name "type", VStr "dict"); (Name "data", VObj d)]).
  set (l := length ((h ++ [node0]) ++ [dobj])).
  set (hp := ((h ++ [node0]) ++ [dobj]) ++ [outer]).
  set (w0 := with_heap hp w).
  assert (Hc : c = length h) by done.
  assert (Hd : d = S c) by (unfold d; rewrite length_app; simpl; lia).
  assert (Hl : l = S (S c)) by (unfold l; rewrite !length_app; simpl; lia).
  assert (Hparse : JSON_parse (JsonText (release_request x)) w = (Ok (VObj l), w0)).
  { reflexivity. }
  assert (Hlo : hp !! l = Some outer) by apply list_lookup_middle, eq_refl.
  assert (Hdo : hp !! d = Some dobj).
  { unfold hp. rewrite lookup_app_l by (rewrite !length_app; simpl; lia).
    by apply list_lookup_middle. }
  assert (Hco : hp !! c = Some node0).
  { unfold hp. rewrite lookup_app_l by (rewrite !length_app; simpl; lia).
    rewrite lookup_app_l by (rewrite !length_app; simpl; lia).
    by apply list_lookup_middle. }
  destruct (unwrapFromJson_flat_in_place tn fuel w0 l d (VStr "dict") dobj)
    as (o' & Hdec & Hprops).
  { lia. }
  { apply (read_prop_literal hp l outer (Name "type") _ Hlo eq_refl). }
  { by right. }
  { apply (read_prop_literal hp l outer (Name "data") _ Hlo eq_refl). }
  { exact Hdo. }
  { repeat constructor. }
  { done. }
  { repeat constructor. exists c. split; [done|]. split; [lia|].
    apply (read_prop_literal hp c node0 (Name "type") _ Hco eq_refl). }
  assert (Hprops' : o_props o' = [(Name "id", VNum x)]).
  { rewrite Hprops. cbn [dobj o_props fmap list_fmap]. unfold decoded_child.
    cbn [fst snd]. change (w_heap w0) with hp.
    by rewrite (read_prop_literal hp c node0 (Name "data") _ Hco eq_refl). }
  set (w1 := with_heap (<[d := o']> (w_heap w0)) w0) in *.
  assert (Hid : get_prop (VObj d) (Name "id") w1 = (Ok (VNum x), w1)).
  { unfold get_prop. f_equal.
    assert (Hlk : w_heap w1 !! d = Some o').
    { apply list_lookup_insert_eq. by eapply lookup_lt_Some. }
    rewrite (read_prop_plain_key (w_heap w1) d o' (Name "id") Hlk) by done.
    by rewrite Hprops'. }
  set (w2 := (releaseObjectWithId (VNum x) w1).2).
  assert (Hrel : releaseObjectWithId (VNum x) w1 = (Ok tt, w2)) by done.
  assert (Hfunc : _releaseObjectWithId (VObj d) w1 = (Ok VUndefined, w2)).
  { unfold _releaseObjectWithId. rewrite (bind_ok _ _ _ _ _ Hid).
    by rewrite (bind_ok _ _ _ _ _ Hrel). }
  set (w3 := with_heap (w_heap w2 ++ [literal [("type", VStr "plain"); ("data", VNull)]]) w2).
  assert (Henc : wrapToJson (S (S fuel)) VUndefined w2 = (Ok (VObj (length (w_heap w2))), w3))
    by done.
  exists w3. split; [|by rewrite !releaseObjectWithId_eq].
  unfold bridge_releaseObjectWithId. erewrite wrapper_after_decode.
  2: { rewrite (bind_ok _ _ _ _ _ Hparse). by apply try_catch_ok. }
  rewrite (bind_ok _ _ _ _ _ Hfunc).
  rewrite (bind_ok _ _ _ _ _ (try_catch_ok _ _ _ _ _ Henc)).
  by apply (stringify_plain_last iso fuel w3 (w_heap w2) JNull).
Qed.

(* ===================================================================== *)
(** * Round trip of flat arrays and dictionaries *)
(* ===================================================================== *)






Section EncodeFlat.
Variables (w : world) (a : loc) (fuel : nat) (o : object).
Hypothesis Ha : w_heap w !! a = Some o.
Hypothesis Hord : props_ordered (o_props o).
Hypothesis Hown : own_keys (o_kind o) (o_props o).*1.
Hypothesis Hprim : Forall (λ kv, isJsonNode kv.2 = true) (o_props o).

(** The address of the container under construction, and the entry it
    receives for the [i]-th property of the source. *)
Let n : loc := length (w_heap w).

(** The body of the two loops of [wrapToJson] on the object [a]. *)
Let body (k : pkey) : M unit :=
let* x := get_prop (VObj a) k in
let* y := wrapToJson (S fuel) x in
put_prop (VObj n) k y.

End EncodeFlat.





